(** * Profilo (loom): entry-id allocation and the trace lifecycle writer

    A shallow embedding of [cpp/logger/Logger.h] and
    [cpp/writer/TraceLifecycleVisitor.cpp], with the properties the
    specification states about them.

    Conventions.  Fixed-width integers are [Z] with the wrap-around written
    out ([wrap32]).  [std::string] is [string]; a [char] array is a
    [list ascii] updated by index.  A member function that mutates the object,
    calls collaborators and may throw is a computation in the monad [M] of
    the lifecycle section: state passing over the object, a chronological log
    of the calls made to collaborators, and an error result. *)

From Stdlib Require Import ZArith List String Ascii Bool Lia Sorted DecimalString.
From stdpp Require Import base list.
Import ListNotations.

Local Open Scope Z_scope.

(** ** Logger.h *)

Module Logger.

(** [const int32_t TRACING_DISABLED = -1; const int32_t NO_MATCH = 0;] *)
Definition TRACING_DISABLED : Z := -1.
Definition NO_MATCH : Z := 0.

Definition INT32_MIN : Z := - 2 ^ 31.
Definition INT32_MAX : Z := 2 ^ 31 - 1.
Definition UINT16_MAX : Z := 2 ^ 16 - 1.

(** Two's complement reduction to [int32_t]: the arithmetic of
    [std::atomic<int32_t>::fetch_add], which wraps silently. *)
Definition wrap32 (x : Z) : Z := (x + 2 ^ 31) mod 2 ^ 32 - 2 ^ 31.

(** The template parameter [T] of [write]: an entry type with an [id]
    field and the static members [T::calculateSize] and [T::pack].  The
    entry types live in [loom/entries/Entry.h]; [write] only needs this
    interface. *)
Class EntryCodec (T : Type) : Type := {
  set_id : Z -> T -> T;
  calculateSize : T -> nat;
  pack : T -> nat -> list Byte.byte
}.

(** The two data members.  [logger_] is the [PacketLogger]; what [write]
    does to it is hand it one payload per call, so it is the list of the
    payloads handed over, oldest first. *)
Record t : Type := mk {
  entryID_ : Z;
  logger_ : list (list Byte.byte)
}.

(** [Logger(provider) : entryID_(0), logger_(provider)] *)
Definition init : t := {| entryID_ := 0; logger_ := [] |}.

(** [entryID_.fetch_add(step)]: returns the old value. *)
Definition fetch_add (step : Z) (l : t) : Z * t :=
  (entryID_ l,
   {| entryID_ := wrap32 (entryID_ l + step); logger_ := logger_ l |}).

(** [nextID]: the [do { id = fetch_add(step) } while (id is a sentinel)]
    loop.  [fuel] bounds the number of fetches; [None] is "still looping". *)
Fixpoint nextID (fuel : nat) (step : Z) (l : t) : option (Z * t) :=
  match fuel with
  | O => None
  | S fuel' =>
      let '(id, l') := fetch_add step l in
      if (id =? TRACING_DISABLED) || (id =? NO_MATCH)
      then nextID fuel' step l'
      else Some (id, l')
  end.

(** [logger_.write(payload, size)] *)
Definition logger_write (payload : list Byte.byte) (l : t) : t :=
  {| entryID_ := entryID_ l; logger_ := logger_ l ++ [payload] |}.

(** [template<class T> int32_t write(T&& entry, uint16_t id_step = 1)] *)
Definition write {T : Type} `{EntryCodec T}
    (fuel : nat) (entry : T) (id_step : Z) (l : t) : option (Z * t) :=
  match nextID fuel id_step l with
  | None => None
  | Some (id, l1) =>
      let entry := set_id id entry in
      let size := calculateSize entry in
      let payload := pack entry size in
      Some (id, logger_write payload l1)
  end.

(** One completed call of [write], as seen on the allocator: the step
    asked for, the counter before and after, and the id returned. *)
Record WriteCall : Type := mkCall {
  w_step : Z;
  w_before : Z;
  w_id : Z;
  w_after : Z
}.

(** A history of successful [write] calls on one [Logger], in the order in
    which they took effect.  Calls from several threads are serialised by
    the atomic counter; a history is one such serialisation, where the
    fetches of one call are not interleaved with another's. *)
Inductive writes {T : Type} `{EntryCodec T} : t -> list WriteCall -> t -> Prop :=
| writes_nil l : writes l [] l
| writes_cons fuel entry step l id l1 calls l2 :
    0 <= step <= UINT16_MAX ->
    write fuel entry step l = Some (id, l1) ->
    writes l1 calls l2 ->
    writes l (mkCall step (entryID_ l) id (entryID_ l1) :: calls) l2.

(** A run of [fetch_add] calls, from whichever callers, in the order in
    which the atomic counter takes them: the values they return.  The
    fetches of concurrent [nextID] loops interleave in such a run. *)
Fixpoint fetch_adds (steps : list Z) (l : t) : list Z * t :=
  match steps with
  | [] => ([], l)
  | step :: steps' =>
      let '(old, l1) := fetch_add step l in
      let '(olds, l2) := fetch_adds steps' l1 in
      (old :: olds, l2)
  end.

(** A call that asked for a positive step and during which the counter
    did not wrap past [INT32_MAX]. *)
Definition wrap_free (c : WriteCall) : Prop :=
  0 < w_step c /\ w_before c <= w_after c.

(** A minimal entry type: the id alone, packed into no bytes. *)
#[global] Instance id_entry : EntryCodec Z := {|
  set_id := fun id _ => id;
  calculateSize := fun _ => O;
  pack := fun _ _ => []
|}.

(** [n] calls of [nextID] in a row, collecting the ids. *)
Fixpoint nextID_n (fuel : nat) (n : nat) (step : Z) (l : t) : option (list Z * t) :=
  match n with
  | O => Some ([], l)
  | S n' =>
      match nextID fuel step l with
      | None => None
      | Some (id, l1) =>
          match nextID_n fuel n' step l1 with
          | None => None
          | Some (ids, l2) => Some (id :: ids, l2)
          end
      end
  end.

(** [template<class T> int32_t writeAndGetCursor(T&& entry,
    LoomBuffer::Cursor& cursor)]: as [write] with the default step, the
    cursor being what the [PacketLogger] answers.  The [PacketLogger] is not
    among the sources at hand: its answer is the parameter [cursor_of], a
    function of the payloads handed over before and of the new one. *)
Definition writeAndGetCursor {T : Type} `{EntryCodec T} {Cursor : Type}
    (cursor_of : list (list Byte.byte) -> list Byte.byte -> Cursor)
    (fuel : nat) (entry : T) (l : t) : option (Z * Cursor * t) :=
  match nextID fuel 1 l with
  | None => None
  | Some (id, l1) =>
      let entry := set_id id entry in
      let size := calculateSize entry in
      let payload := pack entry size in
      Some (id, cursor_of (logger_ l1) payload, logger_write payload l1)
  end.

End Logger.

(** ** TraceLifecycleVisitor.cpp: the data *)

(** Modelled from the spec: [EntryType] is declared in
    [loom/entries/EntryType.h], which is not part of the sources at hand.
    These are the tags the specification names; every other tag is
    [OTHER]. *)
Inductive EntryType : Type :=
| STACK_FRAME
| TRACE_START
| TRACE_END
| TRACE_ABORT
| TRACE_TIMEOUT
| TRACE_BACKWARDS
| TRACE_ANNOTATION
| OTHER (tag : Z).

(** Modelled from the spec: the three entry shapes of
    [loom/entries/Entry.h], with the fields the specification gives them.
    The lifecycle visitor reads [type], [extra] and [matchid] of a standard
    entry and nothing of the other two shapes. *)
Record StandardEntry : Type := mkStandardEntry {
  id : Z;
  type : EntryType;
  timestamp : Z;
  tid : Z;
  callid : Z;
  matchid : Z;
  extra : Z
}.

Record FramesEntry : Type := mkFramesEntry {
  frames_header : StandardEntry;
  frames : list Z
}.

Record BytesEntry : Type := mkBytesEntry {
  bytes_header : StandardEntry;
  arg1 : Z;
  bytes : list Byte.byte
}.

(** The argument of one of the three [visit] overloads. *)
Inductive Entry : Type :=
| Standard (e : StandardEntry)
| Frames (e : FramesEntry)
| Bytes (e : BytesEntry).

(** Modelled from the spec: [AbortReason] is declared in
    [loom/writer/AbortReason.h]; these are the reasons this file uses. *)
Inductive AbortReason : Type :=
| CONTROLLER_INITIATED
| TIMEOUT
| NEW_START.

(** The exceptions this file throws, with the message they are built with.
    [what()] of a [system_error] is taken to be that message (the text the
    error category adds is left out).  [stream_failure] is whatever the
    constructor of [zstr::ofstream] throws when it cannot open the file, and
    [undefined_behavior] marks [back()] on an empty vector. *)
Inductive exception : Type :=
| invalid_argument (what : string)
| runtime_error (what : string)
| system_error (code : Z) (what : string)
| stream_failure (path : string)
| undefined_behavior.

(** [zstr::ofstream]: the path it was opened on and the bytes the lifecycle
    visitor itself has written to it.  ([std::ostream] is the byte string
    alone.) *)
Record ofstream : Type := mkOfstream {
  of_path : string;
  of_data : string
}.

(** The visitors of the pipeline, each holding a reference to the next one
    ([PrintEntryVisitor] to the stream, named by its path). *)
Inductive EntryVisitor : Type :=
| PrintEntryVisitor (sink : string)
| DeltaEncodingVisitor (inner : EntryVisitor)
| TimestampTruncatingVisitor (inner : EntryVisitor) (precision : Z)
| StackTraceInvertingVisitor (inner : EntryVisitor).

(** The calls the visitor makes on its [TraceCallbacks]. *)
Module TraceCallbacks.
Inductive call : Type :=
| onTraceStart (trace_id : Z) (flags : Z) (trace_file : string)
| onTraceEnd (trace_id : Z)
| onTraceAbort (trace_id : Z) (reason : AbortReason).
End TraceCallbacks.

(** What a member function does to the world outside the object, in the
    order in which it does it. *)
Inductive Event : Type :=
| FolderCreated (path : string)
| FileOpened (path : string)
| FileClosed (f : ofstream)
| DelegateVisit (d : EntryVisitor) (e : Entry)
| DelegatesDestroyed (ds : list EntryVisitor)
| Callback (c : TraceCallbacks.call).

(** The data members.  [callbacks_] is [true] when the shared pointer is
    not null. *)
Record TraceLifecycleVisitor : Type := mkVisitor {
  folder_ : string;
  trace_prefix_ : string;
  trace_headers_ : list (string * string);
  output_ : option ofstream;
  delegates_ : list EntryVisitor;
  expected_trace_ : Z;
  callbacks_ : bool;
  done_ : bool
}.

(** The operating system as one call sees it. *)
Record tm : Type := mkTm {
  tm_year : Z;
  tm_mon : Z;
  tm_mday : Z;
  tm_hour : Z;
  tm_min : Z;
  tm_sec : Z
}.

Record stat_t : Type := mkStat {
  st_uid : Z;
  st_gid : Z
}.

Record Sys : Type := mkSys {
  getpid : Z;
  (** [localtime_r(&now, &localnow)] for [now = time(nullptr)]; [None] is
      the null return. *)
  localtime_r : option tm;
  (** [stat(path, &out)]: [inl errno] when it returns non-zero. *)
  stat : string -> Z + stat_t;
  (** [mkdirat(0, path, S_IRWXU | S_IRWXG)]: [Some errno] when it fails. *)
  mkdirat : string -> option Z;
  geteuid : Z;
  getegid : Z;
  (** Whether [new zstr::ofstream(path)] succeeds. *)
  can_open : string -> bool
}.

Definition ENOENT : Z := 2.
Definition EEXIST : Z := 17.

(** ** The monad of member functions *)

(** State [S], a log of events, and a result or an exception.  After an
    exception the state is the one reached when it was thrown. *)
Definition M (S A : Type) : Type := S -> (exception + A) * S * list Event.

Definition ret {S A : Type} (a : A) : M S A := fun s => (inr a, s, []).

Definition bind {S A B : Type} (m : M S A) (f : A -> M S B) : M S B :=
  fun s =>
    match m s with
    | (inl ex, s1, log1) => (inl ex, s1, log1)
    | (inr a, s1, log1) =>
        match f a s1 with
        | (r, s2, log2) => (r, s2, log1 ++ log2)
        end
    end.

Definition throw {S A : Type} (ex : exception) : M S A := fun s => (inl ex, s, []).

Definition emit {S : Type} (ev : Event) : M S unit := fun s => (inr tt, s, [ev]).

Definition get {S : Type} : M S S := fun s => (inr s, s, []).

Definition modify {S : Type} (f : S -> S) : M S unit := fun s => (inr tt, f s, []).

(** [try { m } catch (const std::system_error& ex) { handler }] *)
Definition try_catch_system_error {S A : Type}
    (m : M S A) (handler : Z -> string -> M S A) : M S A :=
  fun s =>
    match m s with
    | (inl (system_error code what), s1, log1) =>
        match handler code what s1 with
        | (r, s2, log2) => (r, s2, log1 ++ log2)
        end
    | other => other
    end.

(** A function without effects that may throw. *)
Definition lift {S A : Type} (r : exception + A) : M S A :=
  match r with
  | inl ex => throw ex
  | inr a => ret a
  end.

Notation "x <- m ;; k" := (bind m (fun x => k))
  (at level 100, m at next level, right associativity).
Notation "m ;;; k" := (bind m (fun _ => k))
  (at level 100, right associativity).

Definition result_of {S A : Type} (r : (exception + A) * S * list Event) : exception + A :=
  fst (fst r).
Definition state_of {S A : Type} (r : (exception + A) * S * list Event) : S :=
  snd (fst r).
Definition events_of {S A : Type} (r : (exception + A) * S * list Event) : list Event :=
  snd r.

(** [evs] followed by what [r] logged. *)
Definition prepend {S A : Type} (evs : list Event)
    (r : (exception + A) * S * list Event) : (exception + A) * S * list Event :=
  match r with
  | (x, s, evs') => (x, s, (evs ++ evs')%list)
  end.

(** ** TraceLifecycleVisitor.cpp: the helper functions *)

Local Open Scope string_scope.

(** [stream << x] on a string stream; integers are printed in decimal. *)
Declare Scope stream_scope.
Delimit Scope stream_scope with stream.
Infix "<<" := String.append (at level 50, left associativity) : stream_scope.
Local Open Scope stream_scope.
Local Open Scope Z_scope.

Definition string_of_Z (z : Z) : string := NilZero.string_of_int (Z.to_int z).

(** The line feed, ['\n']. *)
Definition endl : string := String (ascii_of_nat 10) EmptyString.

Definition kBase64Alphabet : string :=
  "ABCDEFGHIJKLMNOPQRSTUVWXYZabcdefghijklmnopqrstuvwxyz0123456789+/".

Definition kTraceIdStringLen : nat := 11.

(** [s[i]] on a string literal, for [0 <= i]: the character, and the
    terminating NUL past the end. *)
Definition char_at (s : string) (i : Z) : ascii :=
  match String.get (Z.to_nat i) s with
  | Some c => c
  | None => zero
  end.

(** The loop of [getTraceID].  [n] is [idx + 1]: the body runs for
    [idx = n - 1] down to [0], storing one digit and dividing.  [%] and [/]
    of C++ truncate: [Z.rem] and [Z.quot]. *)
Fixpoint getTraceID_loop (n : nat) (trace_id : Z) (result : list ascii) : list ascii :=
  match n with
  | O => result
  | S idx =>
      let result := <[idx := char_at kBase64Alphabet (Z.rem trace_id 64)]> result in
      let trace_id := Z.quot trace_id 64 in
      getTraceID_loop idx trace_id result
  end.

(** [std::string(const char* )]: the characters before the first NUL. *)
Fixpoint string_of_cstr (cs : list ascii) : string :=
  match cs with
  | [] => EmptyString
  | c :: cs' => if Ascii.eqb c zero then EmptyString else String c (string_of_cstr cs')
  end.

Definition getTraceID (trace_id : Z) : exception + string :=
  if trace_id <? 0 then
    inl (invalid_argument "trace_id must be non-negative")
  else
    let result := repeat zero (kTraceIdStringLen + 1) in
    let result := getTraceID_loop kTraceIdStringLen trace_id result in
    inr (string_of_cstr result).

Definition getTraceFilename (sys : Sys) (trace_prefix trace_id : string)
  : exception + string :=
  let filename := EmptyString << trace_prefix << "-" << string_of_Z (getpid sys) << "-" in
  match localtime_r sys with
  | None => inl (runtime_error "Could not localtime_r(3)")
  | Some localnow =>
      let filename :=
        filename
          << string_of_Z (1900 + tm_year localnow) << "-"
          << string_of_Z (1 + tm_mon localnow) << "-"
          << string_of_Z (tm_mday localnow)
          << "T"
          << string_of_Z (tm_hour localnow) << "-"
          << string_of_Z (tm_min localnow) << "-"
          << string_of_Z (tm_sec localnow) in
      let filename := filename << "-" << trace_id << ".tmp" in
      inr filename
  end.

Definition is_valid (ch : ascii) : bool :=
  (Ascii.leb "A" ch && Ascii.leb ch "Z") ||
  (Ascii.leb "a" ch && Ascii.leb ch "z") ||
  (Ascii.leb "0" ch && Ascii.leb ch "9") ||
  Ascii.eqb ch "-" || Ascii.eqb ch "_" || Ascii.eqb ch ".".

(** The loop replaces in place, one index after the other. *)
Fixpoint sanitize (input : string) : string :=
  match input with
  | EmptyString => EmptyString
  | String ch rest => String (if is_valid ch then ch else "_"%char) (sanitize rest)
  end.

Definition ensureFolder {S : Type} (sys : Sys) (folder : string) : M S unit :=
  match stat sys folder with
  | inr _ => ret tt
  | inl errno =>
      if negb (errno =? ENOENT) then
        throw (system_error errno ("Could not stat() folder " << folder))
      else
        match mkdirat sys folder with
        | None => emit (FolderCreated folder)
        | Some errno =>
            if errno =? EEXIST then ret tt
            else throw (system_error errno ("Could not mkdirat() folder " << folder))
        end
  end.

(** ** Reading the trace id back (the decoding the specification speaks of) *)

Fixpoint index_of (c : ascii) (s : string) : option Z :=
  match s with
  | EmptyString => None
  | String c' s' =>
      if Ascii.eqb c c' then Some 0%Z
      else match index_of c s' with
           | Some i => Some (i + 1)%Z
           | None => None
           end
  end.

Definition base64_digit (c : ascii) : option Z := index_of c kBase64Alphabet.

Fixpoint decode_digits (acc : Z) (s : string) : option Z :=
  match s with
  | EmptyString => Some acc
  | String c s' =>
      match base64_digit c with
      | Some d => decode_digits (acc * 64 + d)%Z s'
      | None => None
      end
  end.

(** The number a string of base-64 digits stands for, most significant
    digit first. *)
Definition decodeTraceID (s : string) : option Z := decode_digits 0 s.

(** The [n] low base-64 digits of [x], most significant first. *)
Fixpoint base64_digits (n : nat) (x : Z) : list Z :=
  match n with
  | O => []
  | S n' => (base64_digits n' (x / 64) ++ [x mod 64])%list
  end.

(** The character that stands for digit [d]. *)
Definition digit_char (d : Z) : ascii := char_at kBase64Alphabet d.

(** Digit [n] of the alphabet is not NUL and is found back at index [n]. *)
Definition alphabet_check (n : nat) : bool :=
  negb (Ascii.eqb (digit_char (Z.of_nat n)) zero) &&
  match base64_digit (digit_char (Z.of_nat n)) with
  | Some d => d =? Z.of_nat n
  | None => false
  end.

(** ** TraceLifecycleVisitor.cpp: the member functions *)

Definition set_output_ (o : option ofstream) (v : TraceLifecycleVisitor) : TraceLifecycleVisitor :=
  mkVisitor (folder_ v) (trace_prefix_ v) (trace_headers_ v) o (delegates_ v)
    (expected_trace_ v) (callbacks_ v) (done_ v).

Definition set_delegates_ (ds : list EntryVisitor) (v : TraceLifecycleVisitor) : TraceLifecycleVisitor :=
  mkVisitor (folder_ v) (trace_prefix_ v) (trace_headers_ v) (output_ v) ds
    (expected_trace_ v) (callbacks_ v) (done_ v).

Definition set_done_ (b : bool) (v : TraceLifecycleVisitor) : TraceLifecycleVisitor :=
  mkVisitor (folder_ v) (trace_prefix_ v) (trace_headers_ v) (output_ v) (delegates_ v)
    (expected_trace_ v) (callbacks_ v) b.

(** The constructor. *)
Definition new_TraceLifecycleVisitor
    (folder trace_prefix : string) (callbacks : bool)
    (headers : list (string * string)) (trace_id : Z) : TraceLifecycleVisitor :=
  {| folder_ := folder;
     trace_prefix_ := trace_prefix;
     trace_headers_ := headers;
     output_ := None;
     delegates_ := [];
     expected_trace_ := trace_id;
     callbacks_ := callbacks;
     done_ := false |}.

(** Modelled from the spec: [hasDelegate] is defined in
    [loom/writer/TraceLifecycleVisitor.h], which is not part of the sources
    at hand; a trace is active exactly when the pipeline is not empty. *)
Definition hasDelegate (v : TraceLifecycleVisitor) : bool :=
  match delegates_ v with
  | [] => false
  | _ :: _ => true
  end.

(** [delegates_.back()] *)
Definition back : M TraceLifecycleVisitor EntryVisitor :=
  v <- get ;;
  match last (delegates_ v) with
  | Some d => ret d
  | None => throw undefined_behavior
  end.

(** [delegates_.emplace_back(d)] *)
Definition emplace_back (d : EntryVisitor) : M TraceLifecycleVisitor unit :=
  modify (fun v => set_delegates_ (delegates_ v ++ [d]) v).

(** [if (hasDelegate()) { delegates_.back()->visit(entry); }] *)
Definition forward (entry : Entry) : M TraceLifecycleVisitor unit :=
  v <- get ;;
  if hasDelegate v then
    d <- back ;;
    emit (DelegateVisit d entry)
  else ret tt.

(** [if (callbacks_.get() != nullptr) { callbacks_->c; }] *)
Definition notify (c : TraceCallbacks.call) : M TraceLifecycleVisitor unit :=
  v <- get ;;
  if callbacks_ v then emit (Callback c) else ret tt.

(** Clearing the vector destroys the visitors; resetting the pointer
    destroys the stream, which closes the file. *)
Definition cleanupState : M TraceLifecycleVisitor unit :=
  v <- get ;;
  match delegates_ v with
  | [] => ret tt
  | ds => emit (DelegatesDestroyed ds)
  end ;;;
  modify (set_delegates_ []) ;;;
  match output_ v with
  | None => ret tt
  | Some f => emit (FileClosed f)
  end ;;;
  modify (set_output_ None).

Definition onTraceAbort (trace_id : Z) (reason : AbortReason) : M TraceLifecycleVisitor unit :=
  modify (set_done_ true) ;;;
  cleanupState ;;;
  notify (TraceCallbacks.onTraceAbort trace_id reason).

Definition onTraceEnd (trace_id : Z) : M TraceLifecycleVisitor unit :=
  modify (set_done_ true) ;;;
  cleanupState ;;;
  notify (TraceCallbacks.onTraceEnd trace_id).

Definition abort (reason : AbortReason) : M TraceLifecycleVisitor unit :=
  v <- get ;;
  onTraceAbort (expected_trace_ v) reason.

(** [output_ = std::unique_ptr<zstr::ofstream>(new zstr::ofstream(trace_file))],
    reached with [output_] null. *)
Definition open_output (sys : Sys) (trace_file : string) : M TraceLifecycleVisitor unit :=
  if can_open sys trace_file then
    emit (FileOpened trace_file) ;;;
    modify (set_output_ (Some (mkOfstream trace_file EmptyString)))
  else throw (stream_failure trace_file).

(** The [catch] block of [onTraceStart]: the same error with more
    diagnostics. *)
Definition diagnose {A : Type} (sys : Sys) (folder trace_folder : string)
    (code : Z) (what : string) : M TraceLifecycleVisitor A :=
  match stat sys folder with
  | inl errno =>
      throw (system_error errno
        (EmptyString << "Could not stat(" << folder
           << ")." << endl << "Original exception: " << what))
  | inr stat_out =>
      throw (system_error code
        (EmptyString << "Could not create trace folder " << trace_folder
           << "." << endl << "Original exception: " << what
           << "." << endl << "Debug info for " << folder
           << ": uid=" << string_of_Z (st_uid stat_out)
           << "; gid=" << string_of_Z (st_gid stat_out)
           << "; proc euid=" << string_of_Z (geteuid sys)
           << "; proc egid=" << string_of_Z (getegid sys)))
  end.

(** ** Vocabulary for stating what the member functions do *)

(** What [cleanupState] does to the world from state [v]. *)
Definition teardown_events (v : TraceLifecycleVisitor) : list Event :=
  (match delegates_ v with
   | [] => []
   | ds => [DelegatesDestroyed ds]
   end ++
   match output_ v with
   | None => []
   | Some f => [FileClosed f]
   end)%list.

(** The call [c] on the callbacks, when there are callbacks. *)
Definition callback_events (v : TraceLifecycleVisitor) (c : TraceCallbacks.call) : list Event :=
  if callbacks_ v then [Callback c] else [].

(** The entry handed to the outermost visitor, when there is a pipeline. *)
Definition forward_events (v : TraceLifecycleVisitor) (entry : Entry) : list Event :=
  match last (delegates_ v) with
  | Some d => [DelegateVisit d entry]
  | None => []
  end.

(** The state after an end or an abort: [IDLE], with [done_] set. *)
Definition stopped (v : TraceLifecycleVisitor) : TraceLifecycleVisitor :=
  set_output_ None (set_delegates_ [] (set_done_ true v)).

Definition is_FolderCreated (ev : Event) : Prop :=
  match ev with
  | FolderCreated _ => True
  | _ => False
  end.

(** The callback that ends a trace, for the three entries that end one. *)
Definition terminal_callback (entry : StandardEntry) : option TraceCallbacks.call :=
  match type entry with
  | TRACE_END => Some (TraceCallbacks.onTraceEnd (extra entry))
  | TRACE_ABORT => Some (TraceCallbacks.onTraceAbort (extra entry) CONTROLLER_INITIATED)
  | TRACE_TIMEOUT => Some (TraceCallbacks.onTraceAbort (extra entry) TIMEOUT)
  | _ => None
  end.

(** The same run with [entry] as the entry handed to the pipeline. *)
Definition forwarding (entry : Entry) (ev : Event) : Event :=
  match ev with
  | DelegateVisit d _ => DelegateVisit d entry
  | _ => ev
  end.

Definition relabel {S A : Type} (entry : Entry)
    (r : (exception + A) * S * list Event) : (exception + A) * S * list Event :=
  match r with
  | (x, s, evs) => (x, s, map (forwarding entry) evs)
  end.

(** Lines, each ended by a line feed. *)
Definition unlines (lines : list string) : string :=
  fold_right (fun line rest => line ++ endl ++ rest) EmptyString lines.

Module Writer.
Section WithConstants.

(** Modelled from the spec: the two constants come from
    [loom/writer/TraceLifecycleVisitor.h], which is not part of the sources
    at hand: the version of the file format and the precision to which
    timestamps are truncated. *)
Variable kTraceFormatVersion : Z.
Variable kTimestampPrecision : Z.

Definition writeHeaders (v : TraceLifecycleVisitor) (output : string) (id : string) : string :=
  let output :=
    output
      << "dt" << endl
      << "ver|" << string_of_Z kTraceFormatVersion << endl
      << "id|" << id << endl
      << "prec|" << string_of_Z kTimestampPrecision << endl in
  let output :=
    fold_left
      (fun output header => output << fst header << "|" << snd header << endl)
      (trace_headers_ v) output in
  output << endl.

(** [writeHeaders( *output_, id)].  Writing to an open stream is taken to
    succeed: a failing write is not modelled. *)
Definition writeHeaders_output (id : string) : M TraceLifecycleVisitor unit :=
  v <- get ;;
  match output_ v with
  | Some f =>
      modify (set_output_ (Some (mkOfstream (of_path f) (writeHeaders v (of_data f) id))))
  | None => throw undefined_behavior
  end.

Definition onTraceStart (sys : Sys) (trace_id : Z) (flags : Z) : M TraceLifecycleVisitor unit :=
  v <- get ;;
  if negb (trace_id =? expected_trace_ v) then ret tt
  else
    match output_ v with
    | Some _ =>
        (* active trace with same ID, abort *)
        abort NEW_START
    | None =>
        trace_id_string <- lift (getTraceID trace_id) ;;
        let path_stream := EmptyString << folder_ v << "/" << sanitize trace_id_string in
        let trace_folder := path_stream in
        try_catch_system_error
          (ensureFolder sys trace_folder)
          (diagnose sys (folder_ v) trace_folder) ;;;
        trace_filename <- lift (getTraceFilename sys (trace_prefix_ v) trace_id_string) ;;
        let path_stream := path_stream << "/" << sanitize trace_filename in
        let trace_file := path_stream in
        open_output sys trace_file ;;;
        writeHeaders_output trace_id_string ;;;
        emplace_back (PrintEntryVisitor trace_file) ;;;
        d <- back ;; emplace_back (DeltaEncodingVisitor d) ;;;
        d <- back ;; emplace_back (TimestampTruncatingVisitor d kTimestampPrecision) ;;;
        d <- back ;; emplace_back (StackTraceInvertingVisitor d) ;;;
        notify (TraceCallbacks.onTraceStart trace_id flags trace_file) ;;;
        modify (set_done_ false)
    end.

Definition visit_StandardEntry (sys : Sys) (entry : StandardEntry) : M TraceLifecycleVisitor unit :=
  match type entry with
  | TRACE_END =>
      let trace_id := extra entry in
      v <- get ;;
      if negb (trace_id =? expected_trace_ v) then ret tt
      else
        (* write before we clean up state *)
        forward (Standard entry) ;;;
        onTraceEnd trace_id
  | TRACE_TIMEOUT | TRACE_ABORT =>
      let trace_id := extra entry in
      v <- get ;;
      if negb (trace_id =? expected_trace_ v) then ret tt
      else
        let reason :=
          match type entry with
          | TRACE_TIMEOUT => TIMEOUT
          | _ => CONTROLLER_INITIATED
          end in
        (* write before we clean up state *)
        forward (Standard entry) ;;;
        onTraceAbort trace_id reason
  | TRACE_BACKWARDS | TRACE_START =>
      onTraceStart sys (extra entry) (matchid entry) ;;;
      forward (Standard entry)
  | _ => forward (Standard entry)
  end.

Definition visit_FramesEntry (entry : FramesEntry) : M TraceLifecycleVisitor unit :=
  forward (Frames entry).

Definition visit_BytesEntry (entry : BytesEntry) : M TraceLifecycleVisitor unit :=
  forward (Bytes entry).

(** The three overloads as one function of the entry. *)
Definition visit (sys : Sys) (entry : Entry) : M TraceLifecycleVisitor unit :=
  match entry with
  | Standard e => visit_StandardEntry sys e
  | Frames e => visit_FramesEntry e
  | Bytes e => visit_BytesEntry e
  end.

(** The states a visitor can be in: the one the constructor leaves, and
    those reached from it through the public member functions, whether they
    return or throw. *)
Inductive reachable : TraceLifecycleVisitor -> Prop :=
| reachable_new folder trace_prefix callbacks headers trace_id :
    reachable (new_TraceLifecycleVisitor folder trace_prefix callbacks headers trace_id)
| reachable_visit sys entry v :
    reachable v -> reachable (state_of (visit sys entry v))
| reachable_abort reason v :
    reachable v -> reachable (state_of (abort reason v)).

(** The pipeline [onTraceStart] builds over the stream opened at [path]. *)
Definition pipeline (path : string) : list EntryVisitor :=
  let print := PrintEntryVisitor path in
  let delta := DeltaEncodingVisitor print in
  let trunc := TimestampTruncatingVisitor delta kTimestampPrecision in
  let invert := StackTraceInvertingVisitor trunc in
  [print; delta; trunc; invert].

(** The header block as the specification of the file format lays it out:
    a list of lines, each ended by a line feed. *)
Definition header_lines (id : string) (headers : list (string * string)) : list string :=
  [ "dt";
    "ver|" ++ string_of_Z kTraceFormatVersion;
    "id|" ++ id;
    "prec|" ++ string_of_Z kTimestampPrecision ]
  ++ map (fun header => fst header ++ "|" ++ snd header) headers
  ++ [ EmptyString ].

Definition header_block (id : string) (headers : list (string * string)) : string :=
  unlines (header_lines id headers).

(** The visitor entries are handed to: the last one built. *)
Definition outermost (path : string) : EntryVisitor :=
  StackTraceInvertingVisitor
    (TimestampTruncatingVisitor
       (DeltaEncodingVisitor (PrintEntryVisitor path)) kTimestampPrecision).

(** The state [onTraceStart] leaves when it opens [path] for the trace
    whose id string is [id]. *)
Definition started (v : TraceLifecycleVisitor) (id path : string) : TraceLifecycleVisitor :=
  set_done_ false
    (set_delegates_ (delegates_ v ++ pipeline path)%list
       (set_output_ (Some (mkOfstream path (writeHeaders v EmptyString id))) v)).

(** What holds of every state: no stream and no pipeline, or a stream that
    holds the header block of the expected trace and the pipeline over it. *)
Definition lifecycle_inv (v : TraceLifecycleVisitor) : Prop :=
  match output_ v with
  | None => delegates_ v = []
  | Some f =>
      delegates_ v = pipeline (of_path f) /\
      exists id, getTraceID (expected_trace_ v) = inr id /\
                 of_data f = header_block id (trace_headers_ v)
  end.

End WithConstants.
End Writer.

Import Writer.

(** The state of the lifecycle: [IDLE] with no stream and no pipeline. *)
Definition idle (v : TraceLifecycleVisitor) : Prop :=
  output_ v = None /\ delegates_ v = [].

(** The types the switch of [visit] names; all others take its default
    branch. *)
Definition is_lifecycle (t : EntryType) : bool :=
  match t with
  | TRACE_START | TRACE_BACKWARDS | TRACE_END | TRACE_ABORT | TRACE_TIMEOUT => true
  | _ => false
  end.

(** ** Vocabulary for the file system side of a start *)

(** Whether [ensureFolder] finds the folder or can make it. *)
Definition folder_ready (sys : Sys) (folder : string) : bool :=
  match stat sys folder with
  | inr _ => true
  | inl errno =>
      (errno =? ENOENT) &&
      match mkdirat sys folder with
      | None => true
      | Some errno' => errno' =? EEXIST
      end
  end.

(** What a successful [ensureFolder] has done: made the folder when it was
    missing and nobody else made it in between. *)
Definition folder_events (sys : Sys) (folder : string) : list Event :=
  match stat sys folder with
  | inr _ => []
  | inl _ =>
      match mkdirat sys folder with
      | None => [FolderCreated folder]
      | Some _ => []
      end
  end.

(** The folder and the file of a trace, as [onTraceStart] builds them. *)
Definition trace_folder (v : TraceLifecycleVisitor) (id : string) : string :=
  EmptyString << folder_ v << "/" << sanitize id.

Definition trace_file (v : TraceLifecycleVisitor) (id filename : string) : string :=
  trace_folder v id << "/" << sanitize filename.

(** The members the constructor sets and nothing is meant to change. *)
Definition same_config (v v' : TraceLifecycleVisitor) : Prop :=
  folder_ v' = folder_ v /\
  trace_prefix_ v' = trace_prefix_ v /\
  trace_headers_ v' = trace_headers_ v /\
  expected_trace_ v' = expected_trace_ v /\
  callbacks_ v' = callbacks_ v.

(** The exceptions [visit] lets out. *)
Definition is_start_failure (ex : exception) : Prop :=
  match ex with
  | invalid_argument _ | runtime_error _ | system_error _ _ | stream_failure _ => True
  | undefined_behavior => False
  end.

(** All characters of [s] pass [is_valid]. *)
Definition all_valid (s : string) : bool := forallb is_valid (list_ascii_of_string s).

(** The life of a visitor with all it did to the world: the constructor,
    then calls of [visit] and [abort], each on its own system state, the
    events of each call after those of the calls before. *)
Inductive run_of (kTraceFormatVersion kTimestampPrecision : Z)
  : list Event -> TraceLifecycleVisitor -> Prop :=
| run_new folder trace_prefix callbacks headers trace_id :
    run_of kTraceFormatVersion kTimestampPrecision []
      (new_TraceLifecycleVisitor folder trace_prefix callbacks headers trace_id)
| run_visit sys entry evs v :
    run_of kTraceFormatVersion kTimestampPrecision evs v ->
    run_of kTraceFormatVersion kTimestampPrecision
      (evs ++ events_of (visit kTraceFormatVersion kTimestampPrecision sys entry v))%list
      (state_of (visit kTraceFormatVersion kTimestampPrecision sys entry v))
| run_abort reason evs v :
    run_of kTraceFormatVersion kTimestampPrecision evs v ->
    run_of kTraceFormatVersion kTimestampPrecision
      (evs ++ events_of (abort reason v))%list
      (state_of (abort reason v)).

(** The files open after the events [evs], given those open before: an
    opened file is added, a closed one taken out. *)
Fixpoint files_open (open : list string) (evs : list Event) : list string :=
  match evs with
  | [] => open
  | FileOpened path :: evs' => files_open (path :: open) evs'
  | FileClosed f :: evs' => files_open (remove string_dec (of_path f) open) evs'
  | _ :: evs' => files_open open evs'
  end.

(** The file the object holds open. *)
Definition held_open (v : TraceLifecycleVisitor) : list string :=
  match output_ v with
  | Some f => [of_path f]
  | None => []
  end.

Definition is_file_event (ev : Event) : bool :=
  match ev with
  | FileOpened _ | FileClosed _ => true
  | _ => false
  end.

(** ** A sample run

    A system on which the trace folder does not exist yet and can be made,
    a visitor expecting trace 42, and the state it is in after the
    [TRACE_START] of that trace (format version 3, precision 6). *)
Definition sample_sys : Sys :=
  {| getpid := 4242;
     localtime_r := Some (mkTm 117 0 5 3 4 9);
     stat := fun _ => inl ENOENT;
     mkdirat := fun _ => None;
     geteuid := 10001;
     getegid := 10001;
     can_open := fun _ => true |}.

Definition sample_idle : TraceLifecycleVisitor :=
  new_TraceLifecycleVisitor "/data/traces" "trace" true [("os", "android")] 42.

Definition sample_entry (t : EntryType) (trace_id : Z) : StandardEntry :=
  mkStandardEntry 1 t 1000 7 0 7 trace_id.

Definition sample_active : TraceLifecycleVisitor :=
  state_of (visit 3 6 sample_sys (Standard (sample_entry TRACE_START 42)) sample_idle).

Definition sample_path : string :=
  "/data/traces/AAAAAAAAAAq/trace-4242-2017-1-5T3-4-9-AAAAAAAAAAq.tmp".
(** ** Facts about the id allocator *)

Section LoggerFacts.

Import Logger.

Ltac wrap_arith :=
  unfold wrap32, TRACING_DISABLED, NO_MATCH, UINT16_MAX, INT32_MAX in *;
  change (2 ^ 32) with 4294967296 in *;
  change (2 ^ 31) with 2147483648 in *;
  change (2 ^ 16) with 65536 in *;
  Z.div_mod_to_equations; lia.

Lemma is_sentinel_spec (id : Z) :
  (id =? TRACING_DISABLED) || (id =? NO_MATCH) = true <-> id = -1 \/ id = 0.
Proof.
  unfold TRACING_DISABLED, NO_MATCH.
  rewrite orb_true_iff, !Z.eqb_eq. tauto.
Qed.

Lemma is_sentinel_false (id : Z) :
  (id =? TRACING_DISABLED) || (id =? NO_MATCH) = false <-> id <> -1 /\ id <> 0.
Proof.
  unfold TRACING_DISABLED, NO_MATCH.
  rewrite orb_false_iff, !Z.eqb_neq. tauto.
Qed.

(** [nextID] never hands out a sentinel, whatever the step and the counter. *)
Lemma nextID_not_sentinel (fuel : nat) (step : Z) (l : t) (id : Z) (l' : t) :
  nextID fuel step l = Some (id, l') -> id <> TRACING_DISABLED /\ id <> NO_MATCH.
Proof.
  revert l. induction fuel as [|fuel IH]; intros l; simpl; [discriminate|].
  destruct ((entryID_ l =? TRACING_DISABLED) || (entryID_ l =? NO_MATCH)) eqn:E.
  - apply IH.
  - intros [= <- _]. apply is_sentinel_false in E. exact E.
Qed.

(** More fuel does not change a result. *)
Lemma nextID_fuel_mono (fuel fuel' : nat) (step : Z) (l : t) (r : Z * t) :
  (fuel <= fuel')%nat -> nextID fuel step l = Some r -> nextID fuel' step l = Some r.
Proof.
  revert fuel' l. induction fuel as [|fuel IH]; intros fuel' l Hle; simpl; [discriminate|].
  destruct fuel' as [|fuel']; [lia|]. simpl.
  destruct ((entryID_ l =? TRACING_DISABLED) || (entryID_ l =? NO_MATCH)); [|auto].
  apply IH. lia.
Qed.

(** The shape of a run of the loop with a positive step: the first, second
    or third value fetched is returned, the ones before it being
    sentinels. *)
Lemma nextID_cases (fuel : nat) (step : Z) (l : t) (id : Z) (l' : t) :
  0 < step <= UINT16_MAX ->
  nextID fuel step l = Some (id, l') ->
  logger_ l' = logger_ l /\
  entryID_ l' = wrap32 (id + step) /\
  (id = entryID_ l \/
   ((entryID_ l = -1 \/ entryID_ l = 0) /\ id = wrap32 (entryID_ l + step)) \/
   (entryID_ l = -1 /\ step = 1 /\ id = 1)).
Proof.
  intros Hstep.
  destruct fuel as [|fuel]; simpl; [discriminate|].
  destruct ((entryID_ l =? _) || (entryID_ l =? _)) eqn:E1;
    [apply is_sentinel_spec in E1|intros [= <- <-]; simpl; tauto].
  destruct fuel as [|fuel]; simpl; [discriminate|].
  destruct ((wrap32 (entryID_ l + step) =? _) || (wrap32 (entryID_ l + step) =? _)) eqn:E2;
    [apply is_sentinel_spec in E2|intros [= <- <-]; simpl; tauto].
  assert (entryID_ l = -1 /\ step = 1) as [Hc ->] by wrap_arith.
  rewrite Hc. change (wrap32 (-1 + 1)) with 0.
  destruct fuel as [|fuel]; simpl; [discriminate|].
  change (wrap32 (0 + 1)) with 1. simpl.
  intros [= <- <-]; simpl; tauto.
Qed.

(** With a positive step three fetches are enough: the loop returns. *)
Lemma nextID_terminates (step : Z) (l : t) :
  0 < step <= UINT16_MAX -> exists r, nextID 3 step l = Some r.
Proof.
  intros Hstep. simpl.
  destruct ((entryID_ l =? _) || (entryID_ l =? _)) eqn:E1; [|eauto].
  destruct ((wrap32 (entryID_ l + step) =? _) || (wrap32 (entryID_ l + step) =? _)) eqn:E2; [|eauto].
  destruct ((wrap32 (wrap32 (entryID_ l + step) + step) =? _)
            || (wrap32 (wrap32 (entryID_ l + step) + step) =? _)) eqn:E3; [|eauto].
  apply is_sentinel_spec in E1, E2, E3. exfalso. wrap_arith.
Qed.

(** With step 0 on a sentinel the loop fetches the same sentinel for ever. *)
Lemma nextID_step_0_diverges (fuel : nat) (l : t) :
  entryID_ l = TRACING_DISABLED \/ entryID_ l = NO_MATCH ->
  nextID fuel 0 l = None.
Proof.
  revert l. induction fuel as [|fuel IH]; intros l Hl; simpl; [reflexivity|].
  assert ((entryID_ l =? TRACING_DISABLED) || (entryID_ l =? NO_MATCH) = true) as ->.
  { apply is_sentinel_spec. exact Hl. }
  apply IH. simpl. destruct Hl as [-> | ->]; [left|right]; reflexivity.
Qed.

(** One run of the loop is a run of fetches with the same step: sentinels,
    then the id. *)
Lemma nextID_fetch_adds (fuel : nat) (step : Z) (l : t) (id : Z) (l' : t) :
  nextID fuel step l = Some (id, l') ->
  exists (k : nat) (sentinels : list Z),
    fetch_adds (repeat step (S k)) l = ((sentinels ++ [id])%list, l') /\
    Forall (fun x => x = TRACING_DISABLED \/ x = NO_MATCH) sentinels.
Proof.
  revert l. induction fuel as [|fuel IH]; intros l; simpl; [discriminate|].
  destruct ((entryID_ l =? TRACING_DISABLED) || (entryID_ l =? NO_MATCH)) eqn:E.
  - intros Hn. apply IH in Hn as (k & sentinels & Hf & Hs).
    exists (S k), (entryID_ l :: sentinels). split.
    + change (repeat step (S (S k))) with (step :: repeat step (S k)).
      cbn [fetch_adds fetch_add]. rewrite Hf. reflexivity.
    + constructor; [|exact Hs].
      apply orb_true_iff in E. rewrite !Z.eqb_eq in E. exact E.
  - intros [= <- <-]. exists O, []. split; [reflexivity|constructor].
Qed.

(** X5: while the counter stays within [int32_t] and the steps are
    positive, the values fetched grow, however the callers interleave. *)
Lemma fetch_adds_increasing (steps : list Z) (l : t) :
  Forall (fun step => 0 < step) steps ->
  INT32_MIN <= entryID_ l ->
  entryID_ l + fold_right Z.add 0 steps <= INT32_MAX ->
  Forall (fun old => entryID_ l <= old) (fst (fetch_adds steps l)) /\
  StronglySorted Z.lt (fst (fetch_adds steps l)).
Proof.
  intros Hsteps. revert l.
  induction Hsteps as [|step steps Hstep Hsteps IH]; intros l Hlo Hhi.
  - split; constructor.
  - cbn [fetch_adds fetch_add fold_right] in *.
    set (l1 := {| entryID_ := wrap32 (entryID_ l + step); logger_ := logger_ l |}).
    assert (0 <= fold_right Z.add 0 steps) as Hsum.
    { clear -Hsteps. induction Hsteps; simpl; lia. }
    assert (entryID_ l1 = entryID_ l + step) as Hl1.
    { subst l1. cbn [entryID_]. unfold INT32_MIN in Hlo. wrap_arith. }
    destruct (IH l1) as [Hlow Hsorted]; [lia | lia |].
    destruct (fetch_adds steps l1) as [olds l2]. cbn [fst] in *.
    split.
    + constructor; [lia|]. eapply Forall_impl; [exact Hlow|].
      cbv beta. intros old Hold. lia.
    + constructor; [exact Hsorted|]. eapply Forall_impl; [exact Hlow|].
      cbv beta. intros old Hold. lia.
Qed.

Context {T : Type} `{EntryCodec T}.

Lemma write_inv (fuel : nat) (entry : T) (step : Z) (l : t) (id : Z) (l' : t) :
  write fuel entry step l = Some (id, l') ->
  exists l1, nextID fuel step l = Some (id, l1) /\ entryID_ l' = entryID_ l1.
Proof.
  unfold write. destruct (nextID fuel step l) as [[id1 l1]|]; [|discriminate].
  intros [= <- <-]. eauto.
Qed.

(** [write] returns: with a positive step and three fetches of fuel. *)
Lemma write_returns (entry : T) (step : Z) (l : t) :
  0 < step <= UINT16_MAX -> exists r, write 3 entry step l = Some r.
Proof.
  intros Hstep. destruct (nextID_terminates step l Hstep) as [[id l1] Hr].
  unfold write. rewrite Hr. eauto.
Qed.

(** A successful [write] never returns a sentinel. *)
Lemma write_not_sentinel (fuel : nat) (entry : T) (step : Z) (l : t) (id : Z) (l' : t) :
  write fuel entry step l = Some (id, l') -> id <> -1 /\ id <> 0.
Proof.
  intros Hw. apply write_inv in Hw as (l1 & Hn & _).
  exact (nextID_not_sentinel _ _ _ _ _ Hn).
Qed.

(** One wrap-free call: the id lies between the counter before and the
    counter after. *)
Lemma write_wrap_free (fuel : nat) (entry : T) (step : Z) (l : t) (id : Z) (l' : t) :
  0 < step <= UINT16_MAX ->
  write fuel entry step l = Some (id, l') ->
  entryID_ l <= entryID_ l' ->
  entryID_ l <= id < entryID_ l'.
Proof.
  intros Hstep Hw Hle. apply write_inv in Hw as (l1 & Hn & Heq).
  apply nextID_cases in Hn as (_ & Hc & Hid); [|exact Hstep].
  rewrite Heq in *. rewrite Hc in *. clear Heq Hc.
  destruct Hid as [-> | [[Hs ->] | (Hs & -> & ->)]]; wrap_arith.
Qed.

(** Without a wrap the counter after a call is the counter before plus one,
    two or three steps; with one, it has dropped: comparing the two counters
    tells the two apart. *)
Lemma write_wrap_free_iff (fuel : nat) (entry : T) (step : Z) (l : t) (id : Z) (l' : t) :
  0 < step <= UINT16_MAX ->
  INT32_MIN <= entryID_ l <= INT32_MAX ->
  write fuel entry step l = Some (id, l') ->
  entryID_ l <= entryID_ l' <->
  exists n, 1 <= n <= 3 /\ entryID_ l' = entryID_ l + n * step.
Proof.
  intros Hstep Hrange Hw. apply write_inv in Hw as (l1 & Hn & Heq).
  apply nextID_cases in Hn as (_ & Hc & Hid); [|exact Hstep].
  rewrite Heq, Hc. clear Heq Hc. unfold INT32_MIN in Hrange.
  split.
  - intros Hle.
    destruct Hid as [-> | [[Hs ->] | (Hs & -> & ->)]].
    + exists 1. wrap_arith.
    + exists 2. wrap_arith.
    + exists 3. wrap_arith.
  - intros (n & Hn & ->). nia.
Qed.

Lemma writes_wrap_free_inv (l : t) (calls : list WriteCall) (l' : t) :
  writes l calls l' ->
  Forall wrap_free calls ->
  entryID_ l <= entryID_ l' /\
  Forall (fun c => entryID_ l <= w_id c) calls /\
  StronglySorted Z.lt (map w_id calls).
Proof.
  induction 1 as [l | fuel entry step l id l1 calls l2 Hstep Hw Hrun IH]; intros Hfree.
  - split; [lia|]. split; constructor.
  - apply Forall_cons_1 in Hfree as [[Hpos Hle] Hfree]. simpl in Hpos, Hle.
    destruct (IH Hfree) as (Hle' & Hlow & Hsorted).
    assert (entryID_ l <= id < entryID_ l1) as Hid.
    { eapply write_wrap_free; eauto. lia. }
    split; [lia|]. split.
    + constructor; [simpl; lia|].
      eapply Forall_impl; [exact Hlow|]. simpl. intros c Hc. lia.
    + simpl. constructor; [exact Hsorted|].
      apply List.Forall_map.
      eapply Forall_impl; [exact Hlow|]. simpl. intros c Hc. lia.
Qed.

(** C1, as amended: every id a successful [write] returns is neither [-1]
    nor [0]; and over a history of calls with positive steps during which
    the 32-bit counter does not wrap, each id is strictly greater than all
    ids returned before it. *)
Theorem write_ids_valid_and_increasing (l : t) (calls : list WriteCall) (l' : t) :
  writes l calls l' ->
  Forall (fun c => w_id c <> -1 /\ w_id c <> 0) calls /\
  (Forall wrap_free calls -> StronglySorted Z.lt (map w_id calls)).
Proof.
  intros Hrun. split.
  - induction Hrun as [l | fuel entry step l id l1 calls l2 Hstep Hw Hrun IH];
      constructor; [|exact IH].
    simpl. eapply write_not_sentinel; eauto.
  - intros Hfree. eapply writes_wrap_free_inv; eauto.
Qed.

End LoggerFacts.

(** C5: with the counter at [-2], three calls of [nextID] with step 1
    return [-2], [1] and [2]: the fetches that yield [-1] and [0] are
    retried, and the counter ends at [3].  Any fuel of three or more
    fetches per call gives this result. *)
Theorem nextID_skips_both_sentinels (n : nat) (payloads : list (list Byte.byte)) :
  Logger.nextID_n (3 + n) 3 1 (Logger.mk (-2) payloads)
  = Some ([-2; 1; 2], Logger.mk 3 payloads).
Proof. reflexivity. Qed.

Lemma write_ids_valid_and_increasing_witness :
  let calls := [Logger.mkCall 1 (-2) (-2) (-1); Logger.mkCall 1 (-1) 1 2] in
  Forall (fun c => Logger.w_id c <> -1 /\ Logger.w_id c <> 0) calls /\
  StronglySorted Z.lt (map Logger.w_id calls).
Proof.
  assert (Logger.writes (T := Z) (Logger.mk (-2) [])
            [Logger.mkCall 1 (-2) (-2) (-1); Logger.mkCall 1 (-1) 1 2]
            (Logger.mk 2 [[]; []])) as Hrun.
  { apply (Logger.writes_cons 3%nat 0 1 (Logger.mk (-2) []) (-2) (Logger.mk (-1) [[]]));
      [unfold Logger.UINT16_MAX; lia | reflexivity |].
    apply (Logger.writes_cons 3%nat 0 1 (Logger.mk (-1) [[]]) 1 (Logger.mk 2 [[]; []]));
      [unfold Logger.UINT16_MAX; lia | reflexivity |].
    apply Logger.writes_nil. }
  destruct (write_ids_valid_and_increasing _ _ _ Hrun) as [Hvalid Hsorted].
  split; [exact Hvalid|].
  apply Hsorted.
  repeat constructor; simpl; lia.
Defined.

(** C1 as stated fails when the counter wraps: at [INT32_MAX] two calls
    with step 1 return [2147483647] and then [-2147483648].  It also fails
    for step 0, which the type of the step allows: two calls return the
    same id. *)
Lemma write_ids_decrease_across_wrap :
  let calls := [Logger.mkCall 1 2147483647 2147483647 (-2147483648);
                Logger.mkCall 1 (-2147483648) (-2147483648) (-2147483647)] in
  let calls0 := [Logger.mkCall 0 5 5 5; Logger.mkCall 0 5 5 5] in
  (Logger.writes (T := Z) (Logger.mk 2147483647 []) calls (Logger.mk (-2147483647) [[]; []]) /\
   ~ StronglySorted Z.lt (map Logger.w_id calls)) /\
  (Logger.writes (T := Z) (Logger.mk 5 []) calls0 (Logger.mk 5 [[]; []]) /\
   ~ StronglySorted Z.lt (map Logger.w_id calls0)).
Proof.
  split; split.
  - apply (Logger.writes_cons 1%nat 0 1 (Logger.mk 2147483647 []) 2147483647
             (Logger.mk (-2147483648) [[]]));
      [unfold Logger.UINT16_MAX; lia | reflexivity |].
    apply (Logger.writes_cons 1%nat 0 1 (Logger.mk (-2147483648) [[]]) (-2147483648)
             (Logger.mk (-2147483647) [[]; []]));
      [unfold Logger.UINT16_MAX; lia | reflexivity |].
    apply Logger.writes_nil.
  - simpl. intros Hs. apply StronglySorted_inv in Hs as [_ Hall].
    apply Forall_inv in Hall. lia.
  - apply (Logger.writes_cons 1%nat 0 0 (Logger.mk 5 []) 5 (Logger.mk 5 [[]]));
      [unfold Logger.UINT16_MAX; lia | reflexivity |].
    apply (Logger.writes_cons 1%nat 0 0 (Logger.mk 5 [[]]) 5 (Logger.mk 5 [[]; []]));
      [unfold Logger.UINT16_MAX; lia | reflexivity |].
    apply Logger.writes_nil.
  - simpl. intros Hs. apply StronglySorted_inv in Hs as [_ Hall].
    apply Forall_inv in Hall. lia.
Qed.

(** The wrap is within reach of the constructor: 32768 calls with step
    65535 on a fresh [Logger] leave the counter negative. *)
Lemma wrap_reached_from_init :
  option_map (fun r => Logger.entryID_ (snd r)) (Logger.nextID_n 3 (Z.to_nat 32768) 65535 Logger.init)
  = Some (-2147450881).
Proof. vm_compute. reflexivity. Qed.

(** ** Facts about [getTraceID] *)

Section TraceIDFacts.

(** The alphabet has 64 distinct characters, none of them NUL: each
    character is found back at its own index. *)
Lemma alphabet_digit (d : Z) :
  0 <= d < 64 ->
  Ascii.eqb (digit_char d) zero = false /\ base64_digit (digit_char d) = Some d.
Proof.
  intros Hd.
  assert (forallb alphabet_check (seq 0 64) = true) as Hall by (vm_compute; reflexivity).
  rewrite forallb_forall in Hall.
  specialize (Hall (Z.to_nat d)).
  unfold alphabet_check in Hall. rewrite Z2Nat.id in Hall by lia.
  assert (In (Z.to_nat d) (seq 0 64)) as Hin by (apply in_seq; lia).
  apply Hall in Hin. apply andb_true_iff in Hin as [Hnz Hidx].
  split.
  - apply negb_true_iff. exact Hnz.
  - destruct (base64_digit (digit_char d)) as [d'|]; [|discriminate].
    apply Z.eqb_eq in Hidx. congruence.
Qed.

Lemma base64_digits_length (n : nat) (x : Z) : length (base64_digits n x) = n.
Proof.
  revert x. induction n as [|n IH]; intros x; simpl; [reflexivity|].
  rewrite length_app, IH. simpl. lia.
Qed.

Lemma base64_digits_range (n : nat) (x : Z) :
  Forall (fun d => 0 <= d < 64) (base64_digits n x).
Proof.
  revert x. induction n as [|n IH]; intros x; simpl; [constructor|].
  apply Forall_app. split; [apply IH|].
  constructor; [|constructor]. apply Z.mod_pos_bound. lia.
Qed.

(** Digit [i], counted from the most significant end. *)
Lemma base64_digits_lookup (n : nat) (x : Z) (i : nat) :
  (i < n)%nat ->
  base64_digits n x !! i = Some ((x / 64 ^ (Z.of_nat n - 1 - Z.of_nat i)) mod 64).
Proof.
  revert x. induction n as [|n IH]; intros x Hi; [lia|]. simpl.
  destruct (decide (i < n)%nat) as [Hlt|Hge].
  - rewrite lookup_app_l by (rewrite base64_digits_length; exact Hlt).
    rewrite IH by exact Hlt. f_equal.
    rewrite Z.div_div by lia.
    replace (Z.of_nat (S n) - 1 - Z.of_nat i) with (Z.succ (Z.of_nat n - 1 - Z.of_nat i)) by lia.
    rewrite Z.pow_succ_r by lia. reflexivity.
  - assert (i = n) as -> by lia.
    rewrite lookup_app_r by (rewrite base64_digits_length; lia).
    rewrite base64_digits_length, Nat.sub_diag. simpl.
    replace (Z.of_nat (S n) - 1 - Z.of_nat n) with 0 by lia.
    rewrite Z.pow_0_r, Z.div_1_r. reflexivity.
Qed.

(** Reading the digits back gives the number modulo [64 ^ n]. *)
Lemma base64_digits_value (n : nat) (x acc : Z) :
  0 <= x ->
  fold_left (fun a d => a * 64 + d) (base64_digits n x) acc
  = acc * 64 ^ Z.of_nat n + x mod 64 ^ Z.of_nat n.
Proof.
  revert x acc. induction n as [|n IH]; intros x acc Hx.
  - simpl. rewrite Z.mod_1_r. lia.
  - cbn [base64_digits]. rewrite fold_left_app. cbn [fold_left].
    rewrite IH by (apply Z.div_pos; lia).
    rewrite Nat2Z.inj_succ, Z.pow_succ_r by lia.
    rewrite Z.rem_mul_r by lia.
    ring.
Qed.

(** The loop stores the [n] low digits of [trace_id] in the first [n]
    cells and leaves the other cells alone. *)
Lemma getTraceID_loop_spec (n : nat) (trace_id : Z) (result : list ascii) :
  0 <= trace_id ->
  (n <= length result)%nat ->
  getTraceID_loop n trace_id result
  = (map digit_char (base64_digits n trace_id) ++ drop n result)%list.
Proof.
  revert trace_id result. induction n as [|n IH]; intros trace_id result Hx Hlen.
  - simpl. rewrite drop_0. reflexivity.
  - cbn [getTraceID_loop base64_digits].
    rewrite Z.rem_mod_nonneg, Z.quot_div_nonneg by lia.
    rewrite IH; [|apply Z.div_pos; lia|rewrite length_insert; lia].
    rewrite map_app, <- app_assoc. f_equal. simpl.
    erewrite drop_S; [|apply list_lookup_insert_eq; lia].
    rewrite drop_insert_lt by lia. reflexivity.
Qed.

Lemma string_of_cstr_terminated (cs rest : list ascii) :
  Forall (fun c => Ascii.eqb c zero = false) cs ->
  string_of_cstr (cs ++ zero :: rest)%list = string_of_list_ascii cs.
Proof.
  induction 1 as [|c cs Hc _ IH]; simpl.
  - reflexivity.
  - rewrite Hc, IH. reflexivity.
Qed.

Lemma decode_digits_chars (ds : list Z) (acc : Z) :
  Forall (fun d => 0 <= d < 64) ds ->
  decode_digits acc (string_of_list_ascii (map digit_char ds))
  = Some (fold_left (fun a d => a * 64 + d) ds acc).
Proof.
  intros Hds. revert acc. induction Hds as [|d ds Hd _ IH]; intros acc; simpl.
  - reflexivity.
  - destruct (alphabet_digit d Hd) as [_ ->]. apply IH.
Qed.

Lemma length_string_of_list_ascii (cs : list ascii) :
  String.length (string_of_list_ascii cs) = length cs.
Proof. induction cs as [|c cs IH]; simpl; congruence. Qed.

Lemma get_string_of_list_ascii (cs : list ascii) (i : nat) :
  String.get i (string_of_list_ascii cs) = cs !! i.
Proof.
  revert i. induction cs as [|c cs IH]; intros [|i]; simpl; auto.
Qed.

(** What [getTraceID] returns on a non-negative id: the characters of its
    eleven low digits. *)
Lemma getTraceID_digits (x : Z) :
  0 <= x ->
  getTraceID x
  = inr (string_of_list_ascii (map digit_char (base64_digits kTraceIdStringLen x))).
Proof.
  intros Hx. unfold getTraceID.
  destruct (x <? 0) eqn:E; [apply Z.ltb_lt in E; lia|].
  rewrite getTraceID_loop_spec; [|exact Hx|rewrite repeat_length; unfold kTraceIdStringLen; lia].
  f_equal. change (drop kTraceIdStringLen (repeat zero (kTraceIdStringLen + 1))) with [zero].
  apply string_of_cstr_terminated.
  apply List.Forall_map. eapply Forall_impl; [apply base64_digits_range|].
  intros d Hd. apply alphabet_digit. exact Hd.
Qed.

Lemma getTraceID_length (x : Z) (s : string) :
  getTraceID x = inr s -> String.length s = 11%nat.
Proof.
  destruct (Z.lt_ge_cases x 0) as [Hneg|Hpos].
  - unfold getTraceID. apply Z.ltb_lt in Hneg. rewrite Hneg. discriminate.
  - rewrite getTraceID_digits by exact Hpos. intros Hs.
    assert (s = string_of_list_ascii (map digit_char (base64_digits kTraceIdStringLen x)))
      as -> by congruence.
    rewrite length_string_of_list_ascii, length_map. apply base64_digits_length.
Qed.

(** A negative id is refused. *)
Lemma getTraceID_negative (x : Z) :
  x < 0 -> getTraceID x = inl (invalid_argument "trace_id must be non-negative").
Proof.
  intros Hx. unfold getTraceID. apply Z.ltb_lt in Hx. rewrite Hx. reflexivity.
Qed.

(** C2: for [0 <= x < 64 ^ 11], [getTraceID x] is a string of exactly 11
    characters; character [i] is the alphabet's character for the base-64
    digit of weight [64 ^ (10 - i)] of [x], so the most significant digit
    comes first and the leading zero digits are ['A']; every character is
    one of the 64 of the alphabet; and reading the 11 characters as base-64
    digits gives [x] back. *)
Theorem getTraceID_roundtrip (x : Z) :
  0 <= x < 64 ^ 11 ->
  exists s : string,
    getTraceID x = inr s /\
    String.length s = 11%nat /\
    (forall i : nat, (i < 11)%nat ->
       String.get i s = Some (char_at kBase64Alphabet ((x / 64 ^ (10 - Z.of_nat i)) mod 64))) /\
    (forall i : nat, (i < 11)%nat -> x < 64 ^ (10 - Z.of_nat i) ->
       String.get i s = Some "A"%char) /\
    (forall (i : nat) (c : ascii), String.get i s = Some c ->
       exists d, 0 <= d < 64 /\ String.get (Z.to_nat d) kBase64Alphabet = Some c) /\
    decodeTraceID s = Some x.
Proof.
  intros [Hlo Hhi].
  assert (forall i : nat, (i < 11)%nat ->
            String.get i (string_of_list_ascii (map digit_char (base64_digits 11 x)))
            = Some (char_at kBase64Alphabet ((x / 64 ^ (10 - Z.of_nat i)) mod 64))) as Hget.
  { intros i Hi. rewrite get_string_of_list_ascii, list_lookup_fmap.
    rewrite base64_digits_lookup by exact Hi. simpl. do 3 f_equal. }
  eexists. split; [apply getTraceID_digits; exact Hlo|].
  change kTraceIdStringLen with 11%nat.
  split; [|split; [|split; [|split]]].
  - rewrite length_string_of_list_ascii, length_map. apply base64_digits_length.
  - exact Hget.
  - intros i Hi Hsmall. rewrite Hget by exact Hi.
    rewrite Z.div_small by lia. reflexivity.
  - intros i c Hc.
    destruct (decide (i < 11)%nat) as [Hi|Hi].
    + rewrite Hget in Hc by exact Hi. injection Hc as <-.
      set (d := (x / 64 ^ (10 - Z.of_nat i)) mod 64).
      assert (0 <= d < 64) as Hd by (apply Z.mod_pos_bound; lia).
      exists d. split; [exact Hd|].
      unfold char_at.
      destruct (String.get (Z.to_nat d) kBase64Alphabet) as [c|] eqn:E; [reflexivity|].
      destruct (alphabet_digit d Hd) as [Hnz _]. unfold digit_char, char_at in Hnz.
      rewrite E in Hnz. discriminate.
    + rewrite get_string_of_list_ascii in Hc. apply lookup_lt_Some in Hc.
      rewrite length_map, base64_digits_length in Hc. lia.
  - unfold decodeTraceID. rewrite decode_digits_chars by apply base64_digits_range.
    rewrite base64_digits_value by exact Hlo.
    change (Z.of_nat 11) with 11. rewrite Z.mod_small by lia. reflexivity.
Qed.

Lemma getTraceID_roundtrip_witness :
  exists s : string,
    getTraceID 42 = inr s /\
    String.length s = 11%nat /\
    (forall i : nat, (i < 11)%nat ->
       String.get i s = Some (char_at kBase64Alphabet ((42 / 64 ^ (10 - Z.of_nat i)) mod 64))) /\
    (forall i : nat, (i < 11)%nat -> 42 < 64 ^ (10 - Z.of_nat i) ->
       String.get i s = Some "A"%char) /\
    (forall (i : nat) (c : ascii), String.get i s = Some c ->
       exists d, 0 <= d < 64 /\ String.get (Z.to_nat d) kBase64Alphabet = Some c) /\
    decodeTraceID s = Some 42.
Proof. apply (getTraceID_roundtrip 42). lia. Defined.

End TraceIDFacts.

(** ** Facts about the lifecycle visitor *)

Ltac unfold_M :=
  unfold bind, ret, throw, emit, get, modify, lift, try_catch_system_error;
  cbv beta iota.

Lemma bind_run {S A B : Type} (m : M S A) (k : A -> M S B) (s s' : S) (a : A)
    (evs : list Event) :
  m s = (inr a, s', evs) -> bind m k s = prepend evs (k a s').
Proof. intros Hm. unfold bind, prepend. rewrite Hm. reflexivity. Qed.

Lemma bind_ret_run {S A B : Type} (m : M S A) (k : A -> M S B) (s s' : S) (a : A) :
  m s = (inr a, s', []) -> bind m k s = k a s'.
Proof.
  intros Hm. rewrite (bind_run _ _ _ _ _ _ Hm). unfold prepend.
  destruct (k a s') as [[x s''] evs]. reflexivity.
Qed.

Lemma bind_throw_run {S A B : Type} (m : M S A) (k : A -> M S B) (s s' : S)
    (ex : exception) (evs : list Event) :
  m s = (inl ex, s', evs) -> bind m k s = (inl ex, s', evs).
Proof. intros Hm. unfold bind. rewrite Hm. reflexivity. Qed.

(** [emplace_back(d)] followed by [back()]: the visitor just added. *)
Lemma emplace_back_back {B : Type} (d : EntryVisitor)
    (k : EntryVisitor -> M TraceLifecycleVisitor B) (v : TraceLifecycleVisitor) :
  bind (emplace_back d) (fun _ => bind back k) v
  = k d (set_delegates_ (delegates_ v ++ [d])%list v).
Proof.
  erewrite bind_ret_run by reflexivity.
  apply bind_ret_run. unfold back. erewrite bind_ret_run by reflexivity.
  cbn [delegates_ set_delegates_]. rewrite last_snoc. reflexivity.
Qed.

Lemma forward_run (entry : Entry) (v : TraceLifecycleVisitor) :
  forward entry v = (inr tt, v, forward_events v entry).
Proof.
  unfold forward, forward_events, back, hasDelegate. unfold_M. cbv beta iota.
  destruct (delegates_ v) as [|d ds] eqn:E; cbv beta iota; [reflexivity|].
  rewrite E. destruct (last (d :: ds)) as [d'|] eqn:El; [reflexivity|].
  apply last_None in El. discriminate.
Qed.

Lemma notify_run (c : TraceCallbacks.call) (v : TraceLifecycleVisitor) :
  notify c v = (inr tt, v, callback_events v c).
Proof.
  unfold notify, callback_events. erewrite bind_ret_run by reflexivity.
  destruct (callbacks_ v); reflexivity.
Qed.

Lemma cleanupState_run (v : TraceLifecycleVisitor) :
  cleanupState v = (inr tt, set_output_ None (set_delegates_ [] v), teardown_events v).
Proof.
  unfold cleanupState, teardown_events. unfold_M.
  destruct (delegates_ v), (output_ v); reflexivity.
Qed.

Lemma onTraceAbort_run (trace_id : Z) (reason : AbortReason) (v : TraceLifecycleVisitor) :
  onTraceAbort trace_id reason v
  = (inr tt, stopped v,
     (teardown_events v ++ callback_events v (TraceCallbacks.onTraceAbort trace_id reason))%list).
Proof.
  unfold onTraceAbort, notify, callback_events, stopped. unfold bind at 1 2. unfold modify at 1.
  rewrite cleanupState_run. unfold_M. simpl.
  destruct (callbacks_ v); reflexivity.
Qed.

Lemma onTraceEnd_run (trace_id : Z) (v : TraceLifecycleVisitor) :
  onTraceEnd trace_id v
  = (inr tt, stopped v,
     (teardown_events v ++ callback_events v (TraceCallbacks.onTraceEnd trace_id))%list).
Proof.
  unfold onTraceEnd, notify, callback_events, stopped. unfold bind at 1 2. unfold modify at 1.
  rewrite cleanupState_run. unfold_M. simpl.
  destruct (callbacks_ v); reflexivity.
Qed.

Lemma abort_run (reason : AbortReason) (v : TraceLifecycleVisitor) :
  abort reason v
  = (inr tt, stopped v,
     (teardown_events v
      ++ callback_events v (TraceCallbacks.onTraceAbort (expected_trace_ v) reason))%list).
Proof. unfold abort. unfold bind, get. rewrite onTraceAbort_run. reflexivity. Qed.

Lemma append_assoc (a b c : string) : ((a ++ b) ++ c = a ++ (b ++ c))%string.
Proof. induction a as [|ch a IH]; simpl; congruence. Qed.

Lemma unlines_app (l1 l2 : list string) :
  unlines (l1 ++ l2)%list = (unlines l1 ++ unlines l2)%string.
Proof.
  induction l1 as [|line l1 IH]; simpl; [reflexivity|].
  rewrite IH, !append_assoc. reflexivity.
Qed.

Section LifecycleFacts.

Variable kTraceFormatVersion : Z.
Variable kTimestampPrecision : Z.

Local Abbreviation writeHeaders := (writeHeaders kTraceFormatVersion kTimestampPrecision).
Local Abbreviation onTraceStart := (onTraceStart kTraceFormatVersion kTimestampPrecision).
Local Abbreviation visit_StandardEntry := (visit_StandardEntry kTraceFormatVersion kTimestampPrecision).
Local Abbreviation visit := (visit kTraceFormatVersion kTimestampPrecision).
Local Abbreviation reachable := (reachable kTraceFormatVersion kTimestampPrecision).
Local Abbreviation pipeline := (pipeline kTimestampPrecision).
Local Abbreviation header_block := (header_block kTraceFormatVersion kTimestampPrecision).
Local Abbreviation started := (started kTraceFormatVersion kTimestampPrecision).
Local Abbreviation outermost := (outermost kTimestampPrecision).
Local Abbreviation lifecycle_inv := (lifecycle_inv kTraceFormatVersion kTimestampPrecision).

Lemma onTraceStart_mismatch (sys : Sys) (trace_id flags : Z) (v : TraceLifecycleVisitor) :
  trace_id <> expected_trace_ v ->
  onTraceStart sys trace_id flags v = (inr tt, v, []).
Proof.
  intros Hne. unfold Writer.onTraceStart. unfold bind at 1. unfold get at 1.
  apply Z.eqb_neq in Hne. rewrite Hne. reflexivity.
Qed.

Lemma onTraceStart_active (sys : Sys) (flags : Z) (v : TraceLifecycleVisitor) (f : ofstream) :
  output_ v = Some f ->
  onTraceStart sys (expected_trace_ v) flags v
  = (inr tt, stopped v,
     (teardown_events v
      ++ callback_events v (TraceCallbacks.onTraceAbort (expected_trace_ v) NEW_START))%list).
Proof.
  intros Hout. unfold Writer.onTraceStart. unfold bind at 1. unfold get at 1.
  rewrite Z.eqb_refl, Hout. cbn [negb]. rewrite abort_run. reflexivity.
Qed.

Lemma ensureFolder_run {A : Type} (sys : Sys) (folder trace_folder : string)
    (v : TraceLifecycleVisitor) :
  exists r evs,
    try_catch_system_error (ensureFolder sys trace_folder)
      (diagnose sys folder trace_folder) v = (r, v, evs) /\
    Forall is_FolderCreated evs.
Proof.
  unfold try_catch_system_error, ensureFolder, diagnose.
  destruct (stat sys trace_folder) as [errno|st]; [|unfold_M; eauto].
  destruct (negb (errno =? ENOENT)).
  { unfold_M. destruct (stat sys folder); eauto. }
  destruct (mkdirat sys trace_folder) as [errno'|].
  - destruct (errno' =? EEXIST); unfold_M; [eauto|].
    destruct (stat sys folder); eauto.
  - unfold_M. eexists _, _. split; [reflexivity|]. repeat constructor.
Qed.

(** From [IDLE], [onTraceStart] either throws, having changed nothing in
    the object and at most created the folder, or returns, having opened
    the file, written the headers, built the pipeline and told the
    callbacks. *)
Lemma onTraceStart_idle (sys : Sys) (flags : Z) (v : TraceLifecycleVisitor) :
  output_ v = None ->
  (exists ex evs,
     onTraceStart sys (expected_trace_ v) flags v = (inl ex, v, evs) /\
     Forall is_FolderCreated evs /\
     (expected_trace_ v < 0 -> ex = invalid_argument "trace_id must be non-negative" /\ evs = [])) \/
  (exists id path evs,
     getTraceID (expected_trace_ v) = inr id /\
     Forall is_FolderCreated evs /\
     can_open sys path = true /\
     onTraceStart sys (expected_trace_ v) flags v
     = (inr tt, started v id path,
        (evs ++ [FileOpened path]
         ++ callback_events v (TraceCallbacks.onTraceStart (expected_trace_ v) flags path))%list)).
Proof.
  intros Hout. unfold Writer.onTraceStart.
  erewrite bind_ret_run by reflexivity.
  rewrite Z.eqb_refl, Hout. cbn [negb].
  destruct (getTraceID (expected_trace_ v)) as [ex|id] eqn:Hid.
  { left. exists ex, []. erewrite bind_throw_run by reflexivity.
    split; [reflexivity|]. split; [constructor|].
    intros Hneg. rewrite getTraceID_negative in Hid by exact Hneg.
    split; congruence. }
  assert (0 <= expected_trace_ v) as Hnonneg.
  { destruct (Z.lt_ge_cases (expected_trace_ v) 0) as [Hneg|]; [|assumption].
    rewrite getTraceID_negative in Hid by exact Hneg. discriminate. }
  erewrite bind_ret_run by reflexivity.
  destruct (ensureFolder_run (A := unit) sys (folder_ v)
              (EmptyString << folder_ v << "/" << sanitize id) v)
    as (r1 & evs1 & Hens & Hevs1).
  destruct r1 as [ex|[]].
  { left. exists ex, evs1. erewrite bind_throw_run by exact Hens.
    split; [reflexivity|]. split; [exact Hevs1|]. intros; lia. }
  erewrite bind_run by exact Hens.
  destruct (getTraceFilename sys (trace_prefix_ v) id) as [ex|trace_filename].
  { left. exists ex, evs1. erewrite bind_throw_run by reflexivity.
    cbn [prepend]. rewrite app_nil_r.
    split; [reflexivity|]. split; [exact Hevs1|]. intros; lia. }
  erewrite bind_ret_run by reflexivity.
  set (path := EmptyString << folder_ v << "/" << sanitize id << "/" << sanitize trace_filename).
  destruct (can_open sys path) eqn:Hopen.
  2:{ left. exists (stream_failure path), evs1.
      erewrite bind_throw_run by (unfold open_output; rewrite Hopen; reflexivity).
      cbn [prepend]. rewrite app_nil_r.
      split; [reflexivity|]. split; [exact Hevs1|]. intros; lia. }
  right. exists id, path, evs1.
  split; [reflexivity|]. split; [exact Hevs1|]. split; [exact Hopen|].
  erewrite bind_run by (unfold open_output; rewrite Hopen; reflexivity).
  erewrite bind_ret_run by reflexivity.
  rewrite !emplace_back_back.
  erewrite bind_ret_run by reflexivity.
  erewrite bind_run by apply notify_run.
  unfold started, callback_events, pipeline, modify, prepend.
  cbn [callbacks_ set_delegates_ set_output_ set_done_ delegates_ output_ folder_
       trace_prefix_ trace_headers_ expected_trace_ done_ of_path of_data].
  rewrite <- !app_assoc. cbn [app]. rewrite app_nil_r.
  reflexivity.
Qed.


(** *** The header block *)

Lemma write_header_pairs (headers : list (string * string)) (output : string) :
  fold_left (fun output header => output << fst header << "|" << snd header << endl)
    headers output
  = (output ++ unlines (map (fun header => fst header ++ "|" ++ snd header) headers))%string.
Proof.
  revert output. induction headers as [|header headers IH]; intros output; simpl.
  - clear. induction output as [|ch output IH]; simpl; congruence.
  - rewrite IH, !append_assoc. reflexivity.
Qed.

(** [writeHeaders] appends the header block to the stream. *)
Lemma writeHeaders_block (v : TraceLifecycleVisitor) (output id : string) :
  writeHeaders v output id = (output ++ header_block id (trace_headers_ v))%string.
Proof.
  unfold Writer.writeHeaders, Writer.header_block, header_lines.
  rewrite write_header_pairs, !unlines_app.
  cbn [unlines fold_right].
  rewrite !append_assoc. reflexivity.
Qed.

(** *** One visit, case by case *)

Lemma visit_end_run (sys : Sys) (e : StandardEntry) (v : TraceLifecycleVisitor) :
  type e = TRACE_END ->
  visit_StandardEntry sys e v
  = if extra e =? expected_trace_ v
    then (inr tt, stopped v,
          (forward_events v (Standard e) ++ teardown_events v
           ++ callback_events v (TraceCallbacks.onTraceEnd (extra e)))%list)
    else (inr tt, v, []).
Proof.
  intros Ht. unfold Writer.visit_StandardEntry. rewrite Ht.
  erewrite bind_ret_run by reflexivity.
  destruct (extra e =? expected_trace_ v); [|reflexivity]. cbn [negb].
  erewrite bind_run by apply forward_run.
  rewrite onTraceEnd_run. reflexivity.
Qed.

Lemma visit_abort_run (sys : Sys) (e : StandardEntry) (v : TraceLifecycleVisitor)
    (reason : AbortReason) :
  type e = TRACE_TIMEOUT /\ reason = TIMEOUT \/
  type e = TRACE_ABORT /\ reason = CONTROLLER_INITIATED ->
  visit_StandardEntry sys e v
  = if extra e =? expected_trace_ v
    then (inr tt, stopped v,
          (forward_events v (Standard e) ++ teardown_events v
           ++ callback_events v (TraceCallbacks.onTraceAbort (extra e) reason))%list)
    else (inr tt, v, []).
Proof.
  intros [[Ht ->] | [Ht ->]]; unfold Writer.visit_StandardEntry; rewrite Ht.
  all: erewrite bind_ret_run by reflexivity.
  all: destruct (extra e =? expected_trace_ v); [|reflexivity]; cbn [negb].
  all: erewrite bind_run by apply forward_run.
  all: rewrite onTraceAbort_run; reflexivity.
Qed.

Lemma visit_start_run (sys : Sys) (e : StandardEntry) (v : TraceLifecycleVisitor) :
  type e = TRACE_START \/ type e = TRACE_BACKWARDS ->
  visit_StandardEntry sys e v
  = bind (onTraceStart sys (extra e) (matchid e)) (fun _ => forward (Standard e)) v.
Proof.
  intros [Ht | Ht]; unfold Writer.visit_StandardEntry; rewrite Ht; reflexivity.
Qed.

Lemma visit_default_run (sys : Sys) (e : StandardEntry) (v : TraceLifecycleVisitor) :
  is_lifecycle (type e) = false ->
  visit_StandardEntry sys e v = (inr tt, v, forward_events v (Standard e)).
Proof.
  intros Ht. unfold Writer.visit_StandardEntry.
  destruct (type e); try discriminate; apply forward_run.
Qed.

(** A start or backwards entry for another trace: the object is left as it
    is, and the entry goes to the pipeline when there is one. *)
Lemma visit_start_mismatch (sys : Sys) (e : StandardEntry) (v : TraceLifecycleVisitor) :
  type e = TRACE_START \/ type e = TRACE_BACKWARDS ->
  extra e <> expected_trace_ v ->
  visit_StandardEntry sys e v = (inr tt, v, forward_events v (Standard e)).
Proof.
  intros Ht Hne. rewrite visit_start_run by exact Ht.
  erewrite bind_ret_run by (apply onTraceStart_mismatch; exact Hne).
  apply forward_run.
Qed.

(** An end, abort or timeout entry for another trace is ignored. *)
Lemma visit_stop_mismatch (sys : Sys) (e : StandardEntry) (v : TraceLifecycleVisitor) :
  type e = TRACE_END \/ type e = TRACE_ABORT \/ type e = TRACE_TIMEOUT ->
  extra e <> expected_trace_ v ->
  visit_StandardEntry sys e v = (inr tt, v, []).
Proof.
  intros Ht Hne. apply Z.eqb_neq in Hne.
  destruct Ht as [Ht | [Ht | Ht]].
  - rewrite visit_end_run by exact Ht. rewrite Hne. reflexivity.
  - rewrite (visit_abort_run sys e v CONTROLLER_INITIATED) by auto. rewrite Hne. reflexivity.
  - rewrite (visit_abort_run sys e v TIMEOUT) by auto. rewrite Hne. reflexivity.
Qed.

(** A start or backwards entry for the expected trace while a stream is
    open. *)
Lemma visit_start_active (sys : Sys) (e : StandardEntry) (v : TraceLifecycleVisitor)
    (f : ofstream) :
  type e = TRACE_START \/ type e = TRACE_BACKWARDS ->
  extra e = expected_trace_ v ->
  output_ v = Some f ->
  visit_StandardEntry sys e v
  = (inr tt, stopped v,
     (teardown_events v
      ++ callback_events v (TraceCallbacks.onTraceAbort (expected_trace_ v) NEW_START))%list).
Proof.
  intros Ht He Hout. rewrite visit_start_run by exact Ht. rewrite He.
  erewrite bind_run by (eapply onTraceStart_active; exact Hout).
  rewrite forward_run. unfold forward_events, prepend, stopped.
  cbn [delegates_ set_output_ set_delegates_ set_done_ last]. rewrite app_nil_r. reflexivity.
Qed.

(** A start or backwards entry for the expected trace from [IDLE]. *)
Lemma visit_start_idle (sys : Sys) (e : StandardEntry) (v : TraceLifecycleVisitor) :
  type e = TRACE_START \/ type e = TRACE_BACKWARDS ->
  extra e = expected_trace_ v ->
  output_ v = None ->
  delegates_ v = [] ->
  (exists ex evs,
     visit_StandardEntry sys e v = (inl ex, v, evs) /\
     Forall is_FolderCreated evs /\
     (expected_trace_ v < 0 -> ex = invalid_argument "trace_id must be non-negative" /\ evs = [])) \/
  (exists id path evs,
     getTraceID (expected_trace_ v) = inr id /\
     Forall is_FolderCreated evs /\
     visit_StandardEntry sys e v
     = (inr tt, started v id path,
        (evs ++ [FileOpened path]
         ++ callback_events v (TraceCallbacks.onTraceStart (expected_trace_ v) (matchid e) path)
         ++ [DelegateVisit (outermost path) (Standard e)])%list)).
Proof.
  intros Ht He Hout Hnil. rewrite visit_start_run by exact Ht. rewrite He.
  destruct (onTraceStart_idle sys (matchid e) v Hout)
    as [(ex & evs & Hrun & Hevs & Hneg) | (id & path & evs & Hid & Hevs & _ & Hrun)].
  - left. exists ex, evs. erewrite bind_throw_run by exact Hrun. auto.
  - right. exists id, path, evs. split; [exact Hid|]. split; [exact Hevs|].
    erewrite bind_run by exact Hrun.
    rewrite forward_run. unfold forward_events, prepend, Writer.started.
    cbn [delegates_ set_output_ set_delegates_ set_done_]. rewrite Hnil.
    cbn [app Writer.pipeline last]. rewrite <- !app_assoc. reflexivity.
Qed.

(** *** The invariant *)

Lemma lifecycle_inv_stopped (v : TraceLifecycleVisitor) : lifecycle_inv (stopped v).
Proof. reflexivity. Qed.

Lemma lifecycle_inv_started (v : TraceLifecycleVisitor) (id path : string) :
  delegates_ v = [] ->
  getTraceID (expected_trace_ v) = inr id ->
  lifecycle_inv (started v id path).
Proof.
  intros Hnil Hid. unfold Writer.lifecycle_inv, Writer.started.
  cbn [output_ delegates_ expected_trace_ trace_headers_ set_output_ set_delegates_
       set_done_ of_path of_data].
  rewrite Hnil. split; [reflexivity|].
  exists id. split; [exact Hid|]. apply writeHeaders_block.
Qed.

Lemma lifecycle_inv_idle (v : TraceLifecycleVisitor) :
  lifecycle_inv v -> output_ v = None -> delegates_ v = [].
Proof. unfold Writer.lifecycle_inv. intros Hinv Hout. rewrite Hout in Hinv. exact Hinv. Qed.

Lemma lifecycle_inv_active (v : TraceLifecycleVisitor) (f : ofstream) :
  lifecycle_inv v -> output_ v = Some f -> delegates_ v = pipeline (of_path f).
Proof.
  unfold Writer.lifecycle_inv. intros Hinv Hout. rewrite Hout in Hinv. apply Hinv.
Qed.

Lemma visit_StandardEntry_inv (sys : Sys) (e : StandardEntry) (v : TraceLifecycleVisitor) :
  lifecycle_inv v -> lifecycle_inv (state_of (visit_StandardEntry sys e v)).
Proof.
  intros Hinv.
  destruct (is_lifecycle (type e)) eqn:Hl.
  2:{ rewrite visit_default_run by exact Hl. exact Hinv. }
  destruct (Z.eq_dec (extra e) (expected_trace_ v)) as [He|Hne].
  2:{ destruct (type e) eqn:Ht; try discriminate.
      - rewrite visit_start_mismatch by auto. exact Hinv.
      - rewrite visit_stop_mismatch by auto. exact Hinv.
      - rewrite visit_stop_mismatch by auto. exact Hinv.
      - rewrite visit_stop_mismatch by auto. exact Hinv.
      - rewrite visit_start_mismatch by auto. exact Hinv. }
  assert (type e = TRACE_START \/ type e = TRACE_BACKWARDS ->
          lifecycle_inv (state_of (visit_StandardEntry sys e v))) as Hstart.
  { intros Ht. destruct (output_ v) as [f|] eqn:Hout.
    - erewrite visit_start_active by eauto. apply lifecycle_inv_stopped.
    - pose proof (lifecycle_inv_idle v Hinv Hout) as Hnil.
      destruct (visit_start_idle sys e v Ht He Hout Hnil)
        as [(ex & evs & -> & _) | (id & path & evs & Hid & _ & ->)].
      + exact Hinv.
      + apply lifecycle_inv_started; assumption. }
  apply Z.eqb_eq in He.
  destruct (type e) eqn:Ht; try discriminate; auto.
  - rewrite visit_end_run by exact Ht. rewrite He. apply lifecycle_inv_stopped.
  - rewrite (visit_abort_run sys e v CONTROLLER_INITIATED) by auto. rewrite He.
    apply lifecycle_inv_stopped.
  - rewrite (visit_abort_run sys e v TIMEOUT) by auto. rewrite He.
    apply lifecycle_inv_stopped.
Qed.

(** Every state a visitor can be in satisfies the invariant. *)
Lemma reachable_inv (v : TraceLifecycleVisitor) : reachable v -> lifecycle_inv v.
Proof.
  induction 1 as [folder trace_prefix callbacks headers trace_id
                 | sys entry v _ IH | reason v _ IH].
  - reflexivity.
  - destruct entry as [e|e|e]; cbn [Writer.visit].
    + apply visit_StandardEntry_inv. exact IH.
    + unfold visit_FramesEntry. rewrite forward_run. exact IH.
    + unfold visit_BytesEntry. rewrite forward_run. exact IH.
  - rewrite abort_run. apply lifecycle_inv_stopped.
Qed.

(** With a negative expected id no stream is ever open. *)
Lemma negative_id_idle (v : TraceLifecycleVisitor) :
  reachable v -> expected_trace_ v < 0 -> idle v.
Proof.
  intros Hreach Hneg. apply reachable_inv in Hreach.
  unfold Writer.lifecycle_inv in Hreach. unfold idle.
  destruct (output_ v) as [f|]; [|auto].
  destruct Hreach as (_ & id & Hid & _).
  rewrite getTraceID_negative in Hid by exact Hneg. discriminate.
Qed.


(** *** The entry handed on does not matter to [onTraceStart] *)

Lemma forwarding_callback_events (X : Entry) (v : TraceLifecycleVisitor)
    (c : TraceCallbacks.call) :
  Forall (fun ev => forwarding X ev = ev) (callback_events v c).
Proof. unfold callback_events. destruct (callbacks_ v); repeat constructor. Qed.

Lemma forwarding_teardown_events (X : Entry) (v : TraceLifecycleVisitor) :
  Forall (fun ev => forwarding X ev = ev) (teardown_events v).
Proof.
  unfold teardown_events. destruct (delegates_ v), (output_ v); repeat constructor.
Qed.

Lemma forwarding_FolderCreated (X : Entry) (evs : list Event) :
  Forall is_FolderCreated evs -> Forall (fun ev => forwarding X ev = ev) evs.
Proof.
  intros Hevs. eapply Forall_impl; [exact Hevs|].
  intros [] Hev; simpl in Hev; try contradiction. reflexivity.
Qed.

Lemma onTraceStart_hands_nothing_on (X : Entry) (sys : Sys) (trace_id flags : Z)
    (v : TraceLifecycleVisitor) :
  Forall (fun ev => forwarding X ev = ev) (events_of (onTraceStart sys trace_id flags v)).
Proof.
  destruct (Z.eq_dec trace_id (expected_trace_ v)) as [->|Hne].
  2:{ rewrite onTraceStart_mismatch by exact Hne. constructor. }
  destruct (output_ v) as [f|] eqn:Hout.
  { erewrite onTraceStart_active by exact Hout. cbn [events_of snd].
    apply Forall_app. split;
      [apply forwarding_teardown_events | apply forwarding_callback_events]. }
  destruct (onTraceStart_idle sys flags v Hout)
    as [(ex & evs & -> & Hevs & _) | (id & path & evs & _ & Hevs & _ & ->)];
    cbn [events_of snd].
  - apply forwarding_FolderCreated. exact Hevs.
  - apply Forall_app. split; [apply forwarding_FolderCreated; exact Hevs|].
    constructor; [reflexivity|]. apply forwarding_callback_events.
Qed.

Lemma map_fixed {A : Type} (g : A -> A) (l : list A) :
  Forall (fun x => g x = x) l -> map g l = l.
Proof. induction 1 as [|x l Hx _ IH]; simpl; congruence. Qed.

Lemma relabel_forward {A : Type} (m : M TraceLifecycleVisitor A) (X X' : Entry)
    (v : TraceLifecycleVisitor) :
  Forall (fun ev => forwarding X' ev = ev) (events_of (m v)) ->
  bind m (fun _ => forward X') v = relabel X' (bind m (fun _ => forward X) v).
Proof.
  unfold bind. destruct (m v) as [[[ex|a] s] evs]; cbn [events_of snd]; intros Hevs.
  - cbn [relabel]. rewrite map_fixed by exact Hevs. reflexivity.
  - rewrite !forward_run. cbn [relabel]. rewrite map_app, map_fixed by exact Hevs.
    unfold forward_events. destruct (last (delegates_ s)); reflexivity.
Qed.

(** *** The claims *)

(** C4: a [TRACE_START] for the expected trace that arrives while a stream
    is open aborts the trace with [NEW_START]: the pipeline is destroyed,
    the file closed, the callbacks (if any) told of the abort with that
    reason, the state is [IDLE] again, and no file is opened. *)
Theorem start_while_active_aborts (sys : Sys) (e : StandardEntry) (v : TraceLifecycleVisitor) :
  reachable v ->
  output_ v <> None ->
  type e = TRACE_START ->
  extra e = expected_trace_ v ->
  exists f : ofstream,
    output_ v = Some f /\
    visit_StandardEntry sys e v
    = (inr tt, stopped v,
       ([DelegatesDestroyed (pipeline (of_path f)); FileClosed f]
        ++ (if callbacks_ v
            then [Callback (TraceCallbacks.onTraceAbort (expected_trace_ v) NEW_START)]
            else []))%list) /\
    idle (stopped v) /\
    (forall path, ~ In (FileOpened path) (events_of (visit_StandardEntry sys e v))).
Proof.
  intros Hreach Hout Ht He.
  destruct (output_ v) as [f|] eqn:Hf; [clear Hout|contradiction].
  pose proof (lifecycle_inv_active v f (reachable_inv v Hreach) Hf) as Hds.
  assert (visit_StandardEntry sys e v
          = (inr tt, stopped v,
             ([DelegatesDestroyed (pipeline (of_path f)); FileClosed f]
              ++ (if callbacks_ v
                  then [Callback (TraceCallbacks.onTraceAbort (expected_trace_ v) NEW_START)]
                  else []))%list)) as Hrun.
  { erewrite visit_start_active by eauto.
    unfold teardown_events, callback_events. rewrite Hds, Hf. reflexivity. }
  exists f. split; [reflexivity|]. split; [exact Hrun|]. split; [split; reflexivity|].
  intros path. rewrite Hrun. cbn [events_of snd app].
  destruct (callbacks_ v); simpl; intuition discriminate.
Qed.

(** C6: [getTraceID] refuses every negative id with [invalid_argument];
    and a visitor expecting a negative id is always [IDLE], and a
    [TRACE_START] for that id throws that exception before anything is
    changed or done: the object is as it was and nothing is logged. *)
Theorem negative_trace_id_fails_start (sys : Sys) (e : StandardEntry)
    (v : TraceLifecycleVisitor) :
  reachable v ->
  expected_trace_ v < 0 ->
  type e = TRACE_START ->
  extra e = expected_trace_ v ->
  (forall x, x < 0 -> getTraceID x = inl (invalid_argument "trace_id must be non-negative")) /\
  idle v /\
  visit_StandardEntry sys e v
  = (inl (invalid_argument "trace_id must be non-negative"), v, []).
Proof.
  intros Hreach Hneg Ht He.
  split; [exact getTraceID_negative|].
  destruct (negative_id_idle v Hreach Hneg) as [Hout Hnil].
  split; [split; assumption|].
  destruct (visit_start_idle sys e v (or_introl Ht) He Hout Hnil)
    as [(ex & evs & -> & _ & Hex) | (id & path & evs & Hid & _)].
  - destruct (Hex Hneg) as [-> ->]. reflexivity.
  - rewrite getTraceID_negative in Hid by exact Hneg. discriminate.
Qed.

(** C7: on a [TRACE_END], [TRACE_ABORT] or [TRACE_TIMEOUT] for the expected
    trace while a stream is open, the entry is first handed to the
    pipeline, then the pipeline is destroyed and the file closed, then the
    callback is called: [onTraceEnd], or [onTraceAbort] with
    [CONTROLLER_INITIATED] for an abort and [TIMEOUT] for a timeout. *)
Theorem terminal_entry_order (sys : Sys) (e : StandardEntry) (v : TraceLifecycleVisitor)
    (c : TraceCallbacks.call) :
  reachable v ->
  output_ v <> None ->
  extra e = expected_trace_ v ->
  terminal_callback e = Some c ->
  exists f : ofstream,
    output_ v = Some f /\
    visit_StandardEntry sys e v
    = (inr tt, stopped v,
       ([DelegateVisit (outermost (of_path f)) (Standard e);
         DelegatesDestroyed (pipeline (of_path f));
         FileClosed f]
        ++ (if callbacks_ v then [Callback c] else []))%list) /\
    idle (stopped v).
Proof.
  intros Hreach Hout He Hc.
  destruct (output_ v) as [f|] eqn:Hf; [clear Hout|contradiction].
  pose proof (lifecycle_inv_active v f (reachable_inv v Hreach) Hf) as Hds.
  exists f. split; [reflexivity|]. split; [|split; reflexivity].
  apply Z.eqb_eq in He. unfold terminal_callback in Hc.
  destruct (type e) eqn:Ht; try discriminate; injection Hc as <-.
  - rewrite visit_end_run by exact Ht. rewrite He.
    unfold forward_events, teardown_events, callback_events. rewrite Hds, Hf. reflexivity.
  - rewrite (visit_abort_run sys e v CONTROLLER_INITIATED) by auto. rewrite He.
    unfold forward_events, teardown_events, callback_events. rewrite Hds, Hf. reflexivity.
  - rewrite (visit_abort_run sys e v TIMEOUT) by auto. rewrite He.
    unfold forward_events, teardown_events, callback_events. rewrite Hds, Hf. reflexivity.
Qed.

(** C8: [writeHeaders] appends to the stream the line [dt], the line
    [ver|] with the format version, the line [id|] with the trace id, the
    line [prec|] with the timestamp precision, one [key|value] line per
    header pair in order, and an empty line; so an open trace file holds
    exactly that block, the id being the 11-character string of the
    expected trace id. *)
Theorem opened_file_holds_header_block (v : TraceLifecycleVisitor) (f : ofstream) :
  reachable v ->
  output_ v = Some f ->
  (forall output id,
     writeHeaders v output id
     = (output ++
        unlines ([ "dt";
                   "ver|" ++ string_of_Z kTraceFormatVersion;
                   "id|" ++ id;
                   "prec|" ++ string_of_Z kTimestampPrecision ]
                 ++ map (fun header => fst header ++ "|" ++ snd header) (trace_headers_ v)
                 ++ [ EmptyString ]))%string) /\
  exists id : string,
    getTraceID (expected_trace_ v) = inr id /\
    String.length id = 11%nat /\
    of_data f
    = unlines ([ "dt";
                 "ver|" ++ string_of_Z kTraceFormatVersion;
                 "id|" ++ id;
                 "prec|" ++ string_of_Z kTimestampPrecision ]
               ++ map (fun header => fst header ++ "|" ++ snd header) (trace_headers_ v)
               ++ [ EmptyString ]).
Proof.
  intros Hreach Hf. split; [intros output id; apply writeHeaders_block|].
  apply reachable_inv in Hreach. unfold Writer.lifecycle_inv in Hreach.
  rewrite Hf in Hreach. destruct Hreach as (_ & id & Hid & Hdata).
  exists id. split; [exact Hid|]. split; [exact (getTraceID_length _ _ Hid)|exact Hdata].
Qed.

(** C9, as amended: a [TRACE_BACKWARDS] for the expected trace runs as a
    [TRACE_START] with the same fields does, the entry handed on apart.
    While a stream is open it aborts the trace with [NEW_START] and hands
    the entry to no one, the pipeline being gone.  From [IDLE], when it
    returns, it has opened the file with its header block, built the
    pipeline, told the callbacks of the start, and then handed the entry to
    the new pipeline. *)
Theorem trace_backwards_like_start (sys : Sys) (e : StandardEntry)
    (v : TraceLifecycleVisitor) :
  reachable v ->
  type e = TRACE_BACKWARDS ->
  extra e = expected_trace_ v ->
  (forall e' : StandardEntry,
     type e' = TRACE_START -> extra e' = extra e -> matchid e' = matchid e ->
     visit_StandardEntry sys e' v = relabel (Standard e') (visit_StandardEntry sys e v)) /\
  (forall f : ofstream,
     output_ v = Some f ->
     visit_StandardEntry sys e v
     = (inr tt, stopped v,
        ([DelegatesDestroyed (pipeline (of_path f)); FileClosed f]
         ++ (if callbacks_ v
             then [Callback (TraceCallbacks.onTraceAbort (expected_trace_ v) NEW_START)]
             else []))%list)) /\
  (output_ v = None ->
   forall (s : TraceLifecycleVisitor) (evs : list Event),
     visit_StandardEntry sys e v = (inr tt, s, evs) ->
     exists (id path : string) (pre : list Event),
       getTraceID (expected_trace_ v) = inr id /\
       Forall is_FolderCreated pre /\
       output_ s = Some (mkOfstream path (header_block id (trace_headers_ v))) /\
       delegates_ s = pipeline path /\
       evs = (pre ++ [FileOpened path]
              ++ (if callbacks_ v
                  then [Callback (TraceCallbacks.onTraceStart (expected_trace_ v) (matchid e) path)]
                  else [])
              ++ [DelegateVisit (outermost path) (Standard e)])%list).
Proof.
  intros Hreach Ht He. pose proof (reachable_inv v Hreach) as Hinv.
  split; [|split].
  - intros e' Ht' He' Hm.
    rewrite (visit_start_run sys e' v) by auto.
    rewrite (visit_start_run sys e v) by auto.
    rewrite He', Hm. apply relabel_forward. apply onTraceStart_hands_nothing_on.
  - intros f Hf. erewrite visit_start_active by eauto.
    unfold teardown_events, callback_events.
    rewrite (lifecycle_inv_active v f Hinv Hf), Hf. reflexivity.
  - intros Hout s evs Hrun.
    pose proof (lifecycle_inv_idle v Hinv Hout) as Hnil.
    destruct (visit_start_idle sys e v (or_intror Ht) He Hout Hnil)
      as [(ex & evs' & Hthrow & _) | (id & path & pre & Hid & Hpre & Hok)].
    { rewrite Hthrow in Hrun. discriminate. }
    rewrite Hok in Hrun. injection Hrun as <- <-.
    exists id, path, pre. split; [exact Hid|]. split; [exact Hpre|].
    unfold Writer.started.
    cbn [output_ delegates_ set_output_ set_delegates_ set_done_].
    rewrite Hnil, writeHeaders_block. auto.
Qed.

(** C10, as amended: with no pipeline, a [FramesEntry], a [BytesEntry] and
    a [StandardEntry] of a type the switch does not name (none of
    [TRACE_START], [TRACE_BACKWARDS], [TRACE_END], [TRACE_ABORT],
    [TRACE_TIMEOUT]) leave the object as it is, reach no visitor and no
    callback, and touch no file. *)
Theorem idle_visit_changes_nothing (sys : Sys) (entry : Entry) (v : TraceLifecycleVisitor) :
  delegates_ v = [] ->
  match entry with
  | Standard e => is_lifecycle (type e) = false
  | _ => True
  end ->
  visit sys entry v = (inr tt, v, []).
Proof.
  intros Hnil Hentry.
  assert (forall X, forward_events v X = []) as Hfw.
  { intros X. unfold forward_events. rewrite Hnil. reflexivity. }
  destruct entry as [e|e|e]; cbn [Writer.visit].
  - rewrite visit_default_run by exact Hentry. rewrite Hfw. reflexivity.
  - unfold visit_FramesEntry. rewrite forward_run, Hfw. reflexivity.
  - unfold visit_BytesEntry. rewrite forward_run, Hfw. reflexivity.
Qed.

End LifecycleFacts.

(** ** The sample run: the theorems at work, and the inputs on which the
    code departs from the specification as written *)

Lemma sample_active_reachable : reachable 3 6 sample_active.
Proof.
  apply (reachable_visit 3 6 sample_sys (Standard (sample_entry TRACE_START 42)) sample_idle).
  apply reachable_new.
Qed.

Lemma sample_active_output :
  output_ sample_active
  = Some (mkOfstream sample_path (header_block 3 6 "AAAAAAAAAAq" [("os", "android")])).
Proof. vm_compute. reflexivity. Qed.

(** C3 fails on the code for a [TRACE_START]: with a trace open, a
    [TRACE_START] for another trace (1, when 42 is expected) changes
    nothing in the object and calls no callback, but is handed to the
    pipeline, which prints it into the file of trace 42. *)
Theorem mismatched_start_reaches_pipeline :
  let e := sample_entry TRACE_START 1 in
  reachable 3 6 sample_active /\
  output_ sample_active <> None /\
  type e = TRACE_START /\
  extra e <> expected_trace_ sample_active /\
  visit_StandardEntry 3 6 sample_sys e sample_active
  = (inr tt, sample_active, [DelegateVisit (outermost 6 sample_path) (Standard e)]).
Proof.
  cbv zeta. split; [exact sample_active_reachable|].
  split; [rewrite sample_active_output; discriminate|].
  split; [reflexivity|]. split; [vm_compute; discriminate|].
  vm_compute. reflexivity.
Qed.

Lemma start_while_active_aborts_witness :
  exists f : ofstream,
    output_ sample_active = Some f /\
    visit_StandardEntry 3 6 sample_sys (sample_entry TRACE_START 42) sample_active
    = (inr tt, stopped sample_active,
       ([DelegatesDestroyed (pipeline 6 (of_path f)); FileClosed f]
        ++ (if callbacks_ sample_active
            then [Callback (TraceCallbacks.onTraceAbort (expected_trace_ sample_active) NEW_START)]
            else []))%list) /\
    idle (stopped sample_active) /\
    (forall path,
       ~ In (FileOpened path)
           (events_of (visit_StandardEntry 3 6 sample_sys (sample_entry TRACE_START 42)
                         sample_active))).
Proof.
  apply (start_while_active_aborts 3 6 sample_sys (sample_entry TRACE_START 42) sample_active).
  - exact sample_active_reachable.
  - rewrite sample_active_output. discriminate.
  - reflexivity.
  - reflexivity.
Defined.

Lemma negative_trace_id_fails_start_witness :
  let v := new_TraceLifecycleVisitor "/data/traces" "trace" true [] (-1) in
  (forall x, x < 0 -> getTraceID x = inl (invalid_argument "trace_id must be non-negative")) /\
  idle v /\
  visit_StandardEntry 3 6 sample_sys (sample_entry TRACE_START (-1)) v
  = (inl (invalid_argument "trace_id must be non-negative"), v, []).
Proof.
  apply (negative_trace_id_fails_start 3 6 sample_sys (sample_entry TRACE_START (-1))
           (new_TraceLifecycleVisitor "/data/traces" "trace" true [] (-1))).
  - apply reachable_new.
  - simpl. lia.
  - reflexivity.
  - reflexivity.
Defined.

Lemma terminal_entry_order_witness :
  exists f : ofstream,
    output_ sample_active = Some f /\
    visit_StandardEntry 3 6 sample_sys (sample_entry TRACE_END 42) sample_active
    = (inr tt, stopped sample_active,
       ([DelegateVisit (outermost 6 (of_path f)) (Standard (sample_entry TRACE_END 42));
         DelegatesDestroyed (pipeline 6 (of_path f));
         FileClosed f]
        ++ (if callbacks_ sample_active
            then [Callback (TraceCallbacks.onTraceEnd 42)]
            else []))%list) /\
    idle (stopped sample_active).
Proof.
  apply (terminal_entry_order 3 6 sample_sys (sample_entry TRACE_END 42) sample_active
           (TraceCallbacks.onTraceEnd 42)).
  - exact sample_active_reachable.
  - rewrite sample_active_output. discriminate.
  - reflexivity.
  - reflexivity.
Defined.

Lemma opened_file_holds_header_block_witness :
  exists id : string,
    getTraceID 42 = inr id /\
    String.length id = 11%nat /\
    header_block 3 6 "AAAAAAAAAAq" [("os", "android")]
    = unlines ([ "dt"; "ver|" ++ string_of_Z 3; "id|" ++ id; "prec|" ++ string_of_Z 6 ]
               ++ map (fun header => fst header ++ "|" ++ snd header) [("os", "android")]
               ++ [ EmptyString ]).
Proof.
  exact (proj2 (opened_file_holds_header_block 3 6 sample_active
                  (mkOfstream sample_path (header_block 3 6 "AAAAAAAAAAq" [("os", "android")]))
                  sample_active_reachable sample_active_output)).
Defined.

(** C9 as written fails while a trace is open: the [TRACE_BACKWARDS] for
    the expected trace aborts it and is handed to no visitor. *)
Lemma backwards_while_active_not_forwarded :
  let e := sample_entry TRACE_BACKWARDS 42 in
  reachable 3 6 sample_active /\
  output_ sample_active <> None /\
  type e = TRACE_BACKWARDS /\
  extra e = expected_trace_ sample_active /\
  ~ exists d entry,
      In (DelegateVisit d entry) (events_of (visit_StandardEntry 3 6 sample_sys e sample_active)).
Proof.
  cbv zeta. split; [exact sample_active_reachable|].
  split; [rewrite sample_active_output; discriminate|].
  split; [reflexivity|]. split; [reflexivity|].
  intros (d & entry & Hin). vm_compute in Hin.
  repeat destruct Hin as [Hin|Hin]; try discriminate. exact Hin.
Qed.

Lemma trace_backwards_like_start_witness :
  visit_StandardEntry 3 6 sample_sys (sample_entry TRACE_START 42) sample_idle
  = relabel (Standard (sample_entry TRACE_START 42))
      (visit_StandardEntry 3 6 sample_sys (sample_entry TRACE_BACKWARDS 42) sample_idle) /\
  exists (id path : string) (pre : list Event),
    getTraceID 42 = inr id /\
    Forall is_FolderCreated pre /\
    output_ (state_of (visit_StandardEntry 3 6 sample_sys (sample_entry TRACE_BACKWARDS 42)
                         sample_idle))
    = Some (mkOfstream path (header_block 3 6 id [("os", "android")])) /\
    delegates_ (state_of (visit_StandardEntry 3 6 sample_sys (sample_entry TRACE_BACKWARDS 42)
                            sample_idle))
    = pipeline 6 path /\
    events_of (visit_StandardEntry 3 6 sample_sys (sample_entry TRACE_BACKWARDS 42) sample_idle)
    = (pre ++ [FileOpened path]
       ++ [Callback (TraceCallbacks.onTraceStart 42 7 path)]
       ++ [DelegateVisit (outermost 6 path) (Standard (sample_entry TRACE_BACKWARDS 42))])%list.
Proof.
  destruct (trace_backwards_like_start 3 6 sample_sys (sample_entry TRACE_BACKWARDS 42)
              sample_idle (reachable_new 3 6 _ _ _ _ _) eq_refl eq_refl)
    as (Hsame & _ & Hidle).
  split.
  - apply Hsame; reflexivity.
  - apply Hidle; [reflexivity|].
    destruct (visit_StandardEntry 3 6 sample_sys (sample_entry TRACE_BACKWARDS 42) sample_idle)
      as [[r s] evs] eqn:Hrun.
    assert (r = inr tt) as -> by (apply (f_equal result_of) in Hrun; vm_compute in Hrun; congruence).
    reflexivity.
Defined.

(** C10 as written, with the lifecycle types being [TRACE_START],
    [TRACE_END], [TRACE_ABORT] and [TRACE_TIMEOUT], fails for
    [TRACE_BACKWARDS]: from [IDLE] it opens the file and starts the trace. *)
Lemma backwards_from_idle_starts_trace :
  let e := sample_entry TRACE_BACKWARDS 42 in
  delegates_ sample_idle = [] /\
  ~ In (type e) [TRACE_START; TRACE_END; TRACE_ABORT; TRACE_TIMEOUT] /\
  output_ (state_of (visit 3 6 sample_sys (Standard e) sample_idle)) <> output_ sample_idle /\
  delegates_ (state_of (visit 3 6 sample_sys (Standard e) sample_idle)) = pipeline 6 sample_path /\
  In (FileOpened sample_path) (events_of (visit 3 6 sample_sys (Standard e) sample_idle)) /\
  In (Callback (TraceCallbacks.onTraceStart 42 7 sample_path))
     (events_of (visit 3 6 sample_sys (Standard e) sample_idle)).
Proof.
  cbv zeta. split; [reflexivity|].
  split; [simpl; intuition discriminate|].
  split; [vm_compute; discriminate|].
  split; [vm_compute; reflexivity|].
  split; vm_compute; tauto.
Qed.

Lemma idle_visit_changes_nothing_witness :
  visit 3 6 sample_sys (Standard (sample_entry STACK_FRAME 0)) sample_idle
  = (inr tt, sample_idle, []) /\
  visit 3 6 sample_sys (Frames (mkFramesEntry (sample_entry STACK_FRAME 0) [10; 11])) sample_idle
  = (inr tt, sample_idle, []).
Proof.
  split.
  - apply (idle_visit_changes_nothing 3 6 sample_sys (Standard (sample_entry STACK_FRAME 0))
             sample_idle); reflexivity.
  - apply (idle_visit_changes_nothing 3 6 sample_sys
             (Frames (mkFramesEntry (sample_entry STACK_FRAME 0) [10; 11])) sample_idle);
      [reflexivity | exact I].
Defined.

(** ** More about the id allocator *)

Section LoggerMore.

Import Logger.

Ltac wrap_arith' :=
  unfold wrap32, TRACING_DISABLED, NO_MATCH, UINT16_MAX, INT32_MAX, INT32_MIN in *;
  change (2 ^ 32) with 4294967296 in *;
  change (2 ^ 31) with 2147483648 in *;
  change (2 ^ 16) with 65536 in *;
  Z.div_mod_to_equations; lia.



Context {T : Type} `{EntryCodec T}.

(** X2: with step 0 on a counter that holds a sentinel, as the counter of
    a fresh [Logger] does, [write] never returns: every fetch yields the
    same sentinel. *)
Theorem write_step_0_on_sentinel_never_returns (fuel : nat) (entry : T) (l : t) :
  entryID_ l = TRACING_DISABLED \/ entryID_ l = NO_MATCH ->
  write fuel entry 0 l = None.
Proof.
  intros Hl. unfold write. rewrite nextID_step_0_diverges by exact Hl. reflexivity.
Qed.

(** X3: a successful [write] hands the [PacketLogger] exactly one payload,
    after those it already had: the entry packed with the returned id in
    its [id] field. *)
Theorem write_logs_entry_with_returned_id (fuel : nat) (entry : T) (step : Z)
    (l : t) (id : Z) (l' : t) :
  0 < step <= UINT16_MAX ->
  write fuel entry step l = Some (id, l') ->
  logger_ l' =
  (logger_ l ++ [pack (set_id id entry) (calculateSize (set_id id entry))])%list.
Proof.
  intros Hstep. unfold write.
  destruct (nextID fuel step l) as [[id1 l1]|] eqn:Hrun; [|discriminate].
  intros [= <- <-].
  destruct (nextID_cases _ _ _ _ _ Hstep Hrun) as (Hlog & _).
  cbn [logger_write logger_]. rewrite Hlog. reflexivity.
Qed.

(** X6: [writeAndGetCursor] allocates as [write] with step 1 does: it
    returns (three fetches are enough), with the same id, never a sentinel,
    and leaves the [Logger] in the same state; the cursor is the one the
    [PacketLogger] gives for the packed entry. *)
Theorem writeAndGetCursor_as_write {Cursor : Type}
    (cursor_of : list (list Byte.byte) -> list Byte.byte -> Cursor)
    (fuel : nat) (entry : T) (l : t) :
  (3 <= fuel)%nat ->
  exists (id : Z) (l' : t),
    write fuel entry 1 l = Some (id, l') /\
    writeAndGetCursor cursor_of fuel entry l
    = Some (id,
            cursor_of (logger_ l) (pack (set_id id entry) (calculateSize (set_id id entry))),
            l') /\
    id <> TRACING_DISABLED /\ id <> NO_MATCH.
Proof.
  intros Hfuel.
  assert (0 < 1 <= UINT16_MAX) as Hstep by (unfold UINT16_MAX; lia).
  destruct (nextID_terminates 1 l Hstep) as [[id l1] Hrun].
  apply (nextID_fuel_mono 3 fuel) in Hrun; [|exact Hfuel].
  destruct (nextID_not_sentinel _ _ _ _ _ Hrun) as [H1 H0].
  destruct (nextID_cases _ _ _ _ _ Hstep Hrun) as (Hlog & _).
  exists id, (logger_write (pack (set_id id entry) (calculateSize (set_id id entry))) l1).
  unfold write, writeAndGetCursor. rewrite Hrun, Hlog. auto.
Qed.

End LoggerMore.

Lemma write_step_0_on_sentinel_never_returns_witness :
  Logger.write (T := Z) 1000 0 0 Logger.init = None.
Proof.
  apply (write_step_0_on_sentinel_never_returns 1000 0 Logger.init).
  right. reflexivity.
Defined.

Lemma write_logs_entry_with_returned_id_witness :
  Logger.logger_ (Logger.mk 2 [[]]) = (Logger.logger_ (Logger.mk (-1) []) ++ [[]])%list.
Proof.
  refine (write_logs_entry_with_returned_id (T := Z) 3 0 1 (Logger.mk (-1) []) 1
            (Logger.mk 2 [[]]) _ _).
  - unfold Logger.UINT16_MAX. lia.
  - reflexivity.
Defined.

Lemma writeAndGetCursor_as_write_witness :
  exists (id : Z) (l' : Logger.t),
    Logger.write (T := Z) 3 0 1 Logger.init = Some (id, l') /\
    Logger.writeAndGetCursor (fun before _ => length before) 3 0 Logger.init
    = Some (id, length (Logger.logger_ Logger.init), l') /\
    id <> Logger.TRACING_DISABLED /\ id <> Logger.NO_MATCH.
Proof.
  apply (writeAndGetCursor_as_write (T := Z) (fun before _ => length before) 3 0 Logger.init).
  lia.
Defined.

(** X4: on a fresh [Logger] the default step hands out 1, 2, 3, ... in
    order: [n + 1] calls of [nextID] return the ids from [1] to [n + 1],
    as long as the counter stays below [INT32_MAX]. *)
Theorem fresh_logger_counts_from_one (fuel n : nat) :
  (2 <= fuel)%nat ->
  Z.of_nat n + 2 <= Logger.INT32_MAX ->
  Logger.nextID_n fuel (S n) 1 Logger.init
  = Some (map (fun i => 1 + Z.of_nat i) (seq 0 (S n)), Logger.mk (Z.of_nat n + 2) []).
Proof.
  intros Hfuel Hmax.
  assert (forall (k : nat) (c : Z) ps,
            1 <= c -> c + Z.of_nat k <= Logger.INT32_MAX ->
            Logger.nextID_n fuel k 1 (Logger.mk c ps)
            = Some (map (fun i => c + Z.of_nat i) (seq 0 k), Logger.mk (c + Z.of_nat k) ps))
    as Hgen.
  { induction k as [|k IH]; intros c ps Hc Hk.
    - simpl. rewrite Z.add_0_r. reflexivity.
    - cbn [Logger.nextID_n].
      destruct fuel as [|fuel']; [lia|]. cbn [Logger.nextID Logger.fetch_add Logger.entryID_].
      assert ((c =? Logger.TRACING_DISABLED) || (c =? Logger.NO_MATCH) = false) as ->.
      { apply orb_false_iff. unfold Logger.TRACING_DISABLED, Logger.NO_MATCH. lia. }
      assert (Logger.wrap32 (c + 1) = c + 1) as ->.
      { unfold Logger.wrap32, Logger.INT32_MAX in *.
        change (2 ^ 32) with 4294967296 in *. change (2 ^ 31) with 2147483648 in *.
        Z.div_mod_to_equations. lia. }
      cbn [Logger.logger_]. rewrite IH by lia.
      cbn [seq map]. rewrite Z.add_0_r. rewrite <- seq_shift, map_map.
      do 3 f_equal.
      + apply map_ext. intros i. lia.
      + lia. }
  cbn [Logger.nextID_n].
  destruct fuel as [|[|fuel']]; [lia | lia |].
  change (Logger.nextID (S (S fuel')) 1 Logger.init)
    with (Some (1, Logger.mk 2 [])).
  cbv beta iota. rewrite Hgen by lia.
  cbn [seq map]. rewrite <- seq_shift, map_map.
  do 3 f_equal.
  - apply map_ext. intros i. lia.
  - lia.
Qed.

Lemma fresh_logger_counts_from_one_witness :
  Logger.nextID_n 2 4 1 Logger.init = Some ([1; 2; 3; 4], Logger.mk 5 []).
Proof.
  apply (fresh_logger_counts_from_one 2 3).
  - lia.
  - unfold Logger.INT32_MAX. simpl. lia.
Defined.

Lemma fetch_adds_increasing_witness :
  Forall (fun old => -2 <= old) [-2; -1; 0; 1; 2] /\
  StronglySorted Z.lt [-2; -1; 0; 1; 2].
Proof.
  apply (fetch_adds_increasing [1; 1; 1; 1; 1] (Logger.mk (-2) [])).
  - repeat constructor.
  - unfold Logger.INT32_MIN. simpl. lia.
  - unfold Logger.INT32_MAX. simpl. lia.
Defined.

(** ** More about the helper functions *)

Lemma sanitize_char_valid (ch : ascii) :
  is_valid (if is_valid ch then ch else "_"%char) = true.
Proof. destruct (is_valid ch) eqn:E; [exact E|reflexivity]. Qed.

Lemma sanitize_app (a b : string) :
  sanitize (a ++ b) = (sanitize a ++ sanitize b)%string.
Proof. induction a as [|ch a IH]; simpl; congruence. Qed.

Lemma string_of_list_ascii_app (l1 l2 : list ascii) :
  string_of_list_ascii (l1 ++ l2)%list
  = (string_of_list_ascii l1 ++ string_of_list_ascii l2)%string.
Proof. induction l1 as [|c l1 IH]; simpl; congruence. Qed.

(** X7: sanitizing twice is sanitizing once. *)
Theorem sanitize_idempotent (s : string) : sanitize (sanitize s) = sanitize s.
Proof.
  induction s as [|ch s IH]; simpl; [reflexivity|].
  rewrite sanitize_char_valid, IH. reflexivity.
Qed.

(** X8: [sanitize] keeps the length, leaves every character that passes
    [is_valid] where it is and puts ['_'] in place of every other one; the
    result has valid characters only, so no ['/'] is left in it. *)
Theorem sanitize_charwise (s : string) :
  String.length (sanitize s) = String.length s /\
  all_valid (sanitize s) = true /\
  (forall i : nat,
     String.get i (sanitize s)
     = option_map (fun ch => if is_valid ch then ch else "_"%char) (String.get i s)) /\
  (forall i : nat, String.get i (sanitize s) <> Some "/"%char).
Proof.
  split; [|split; [|split]].
  - induction s as [|ch s IH]; simpl; congruence.
  - unfold all_valid. induction s as [|ch s IH]; simpl; [reflexivity|].
    rewrite sanitize_char_valid. exact IH.
  - induction s as [|ch s IH]; intros [|i]; simpl; auto.
  - induction s as [|ch s IH]; intros [|i]; simpl; try discriminate.
    + destruct (is_valid ch) eqn:Hch; intros [= ->]; discriminate.
    + apply IH.
Qed.

(** X9: the strings [sanitize] leaves as they are are exactly those whose
    characters all pass [is_valid]. *)
Theorem sanitize_fixed_iff (s : string) :
  sanitize s = s <-> all_valid s = true.
Proof.
  unfold all_valid. induction s as [|ch s IH]; simpl; [tauto|].
  rewrite andb_true_iff, <- IH. split.
  - intros [= Hch Hs]. split; [|exact Hs].
    destruct (is_valid ch) eqn:E; [reflexivity|]. subst ch. discriminate E.
  - intros [Hch Hs]. rewrite Hch, Hs. reflexivity.
Qed.

Lemma getTraceID_decodes (x : Z) (s : string) :
  0 <= x -> getTraceID x = inr s -> decodeTraceID s = Some (x mod 64 ^ 11).
Proof.
  intros Hx. rewrite getTraceID_digits by exact Hx. intros Hs.
  assert (s = string_of_list_ascii (map digit_char (base64_digits kTraceIdStringLen x)))
    as -> by congruence.
  unfold decodeTraceID. rewrite decode_digits_chars by apply base64_digits_range.
  rewrite base64_digits_value by exact Hx. reflexivity.
Qed.

Lemma getTraceID_inj (x y : Z) :
  0 <= x < 64 ^ 11 ->
  0 <= y < 64 ^ 11 ->
  getTraceID x = getTraceID y ->
  x = y.
Proof.
  intros Hx Hy Heq.
  destruct (getTraceID x) as [ex|s] eqn:Hsx.
  { rewrite getTraceID_digits in Hsx by lia. discriminate. }
  symmetry in Heq.
  pose proof (getTraceID_decodes x s (proj1 Hx) Hsx) as Hdx.
  pose proof (getTraceID_decodes y s (proj1 Hy) Heq) as Hdy.
  rewrite Hdx in Hdy. rewrite !Z.mod_small in Hdy by lia. congruence.
Qed.

(** X10: below [64 ^ 11], and so for every non-negative [int64_t],
    different trace ids get different strings. *)
Theorem getTraceID_injective (x y : Z) :
  0 <= x < 64 ^ 11 ->
  0 <= y < 64 ^ 11 ->
  getTraceID x = getTraceID y ->
  x = y.
Proof. exact (getTraceID_inj x y). Qed.

Lemma getTraceID_injective_witness : 62 = 62.
Proof.
  apply (getTraceID_injective 62 62); [lia | lia | reflexivity].
Defined.

(** X11: the folder of a trace is named by the sanitized id, and there
    ['+'] and ['/'] both become ['_']: a trace id whose last base-64 digit
    is 62 and the next id have different strings and the same folder
    name. *)
Theorem trace_folder_names_collide (x : Z) :
  0 <= x ->
  x + 1 < 64 ^ 11 ->
  x mod 64 = 62 ->
  exists a b : string,
    getTraceID x = inr a /\
    getTraceID (x + 1) = inr b /\
    a <> b /\
    sanitize a = sanitize b.
Proof.
  intros Hx Hhi Hmod.
  exists (string_of_list_ascii (map digit_char (base64_digits kTraceIdStringLen x))),
         (string_of_list_ascii (map digit_char (base64_digits kTraceIdStringLen (x + 1)))).
  split; [apply getTraceID_digits; lia|].
  split; [apply getTraceID_digits; lia|].
  split.
  - intros Heq.
    assert (getTraceID x = getTraceID (x + 1)) as Hid.
    { rewrite !getTraceID_digits by lia. f_equal. exact Heq. }
    apply getTraceID_inj in Hid; lia.
  - change kTraceIdStringLen with (S 10). cbn [base64_digits].
    assert ((x + 1) / 64 = x / 64) as -> by (Z.div_mod_to_equations; lia).
    assert ((x + 1) mod 64 = 63) as -> by (Z.div_mod_to_equations; lia).
    rewrite Hmod, !map_app, !string_of_list_ascii_app, !sanitize_app.
    reflexivity.
Qed.

Lemma trace_folder_names_collide_witness :
  exists a b : string,
    getTraceID 62 = inr a /\
    getTraceID (62 + 1) = inr b /\
    a <> b /\
    sanitize a = sanitize b.
Proof.
  apply (trace_folder_names_collide 62); [lia | lia | reflexivity].
Defined.

(** X12: [ensureFolder] leaves the caller's state alone and throws nothing
    but [system_error].  It returns when the folder is there, when it makes
    it, and when [mkdirat] finds that somebody else just made it
    ([EEXIST]).  When it throws, the code is the [errno] of the call that
    failed ([stat] with anything but [ENOENT], or [mkdirat] with anything
    but [EEXIST]) and no folder was made. *)
Theorem ensureFolder_outcome {S : Type} (sys : Sys) (folder : string) (s : S) :
  state_of (ensureFolder sys folder s) = s /\
  (folder_ready sys folder = true ->
   ensureFolder sys folder s = (inr tt, s, folder_events sys folder)) /\
  (folder_ready sys folder = false ->
   exists (errno : Z) (what : string),
     ensureFolder sys folder s = (inl (system_error errno what), s, []) /\
     (stat sys folder = inl errno /\ errno <> ENOENT \/
      stat sys folder = inl ENOENT /\ mkdirat sys folder = Some errno /\ errno <> EEXIST)).
Proof.
  unfold ensureFolder, folder_ready, folder_events.
  destruct (stat sys folder) as [errno|st] eqn:Hstat.
  2:{ split; [reflexivity|]. split; [reflexivity|discriminate]. }
  destruct (errno =? ENOENT) eqn:Hno; cbn [negb andb].
  2:{ apply Z.eqb_neq in Hno. split; [reflexivity|]. split; [discriminate|].
      intros _. eexists _, _. split; [reflexivity|]. left. auto. }
  apply Z.eqb_eq in Hno. subst errno.
  destruct (mkdirat sys folder) as [errno'|] eqn:Hmk.
  2:{ split; [reflexivity|]. split; [reflexivity|discriminate]. }
  destruct (errno' =? EEXIST) eqn:Hex.
  - split; [reflexivity|]. split; [reflexivity|discriminate].
  - apply Z.eqb_neq in Hex. split; [reflexivity|]. split; [discriminate|].
    intros _. eexists _, _. split; [reflexivity|]. right. auto.
Qed.

Lemma ensureFolder_outcome_witness :
  ensureFolder sample_sys "/data/traces/AAAAAAAAAAq" tt
  = (inr tt, tt, [FolderCreated "/data/traces/AAAAAAAAAAq"]).
Proof.
  refine (proj1 (proj2 (ensureFolder_outcome sample_sys "/data/traces/AAAAAAAAAAq" tt)) _).
  reflexivity.
Defined.

(** ** More about the lifecycle visitor *)

Lemma getTraceID_throws (x : Z) (ex : exception) :
  getTraceID x = inl ex -> ex = invalid_argument "trace_id must be non-negative".
Proof. unfold getTraceID. destruct (x <? 0); congruence. Qed.

Lemma getTraceFilename_throws (sys : Sys) (trace_prefix trace_id : string) (ex : exception) :
  getTraceFilename sys trace_prefix trace_id = inl ex ->
  localtime_r sys = None /\ ex = runtime_error "Could not localtime_r(3)".
Proof.
  unfold getTraceFilename. destruct (localtime_r sys); [discriminate|].
  intros [= <-]. auto.
Qed.

Lemma folder_events_created (sys : Sys) (folder : string) :
  Forall is_FolderCreated (folder_events sys folder).
Proof.
  unfold folder_events. destruct (stat sys folder); [|constructor].
  destruct (mkdirat sys folder); repeat constructor.
Qed.

Lemma ensureFolder_guarded (sys : Sys) (folder trace_folder : string)
    (v : TraceLifecycleVisitor) :
  if folder_ready sys trace_folder
  then try_catch_system_error (ensureFolder sys trace_folder)
         (diagnose (A := unit) sys folder trace_folder) v
       = (inr tt, v, folder_events sys trace_folder)
  else exists code what,
         try_catch_system_error (ensureFolder sys trace_folder)
           (diagnose (A := unit) sys folder trace_folder) v
         = (inl (system_error code what), v, []).
Proof.
  unfold try_catch_system_error, ensureFolder, diagnose, folder_ready, folder_events.
  destruct (stat sys trace_folder) as [errno|st]; [|reflexivity].
  destruct (errno =? ENOENT); cbn [negb andb].
  2:{ unfold throw. destruct (stat sys folder); eauto. }
  destruct (mkdirat sys trace_folder) as [errno'|]; [|reflexivity].
  destruct (errno' =? EEXIST); [reflexivity|].
  unfold throw. destruct (stat sys folder); eauto.
Qed.

Section LifecycleMore.

Variable kTraceFormatVersion : Z.
Variable kTimestampPrecision : Z.

Local Abbreviation writeHeaders := (writeHeaders kTraceFormatVersion kTimestampPrecision).
Local Abbreviation onTraceStart := (onTraceStart kTraceFormatVersion kTimestampPrecision).
Local Abbreviation visit_StandardEntry := (visit_StandardEntry kTraceFormatVersion kTimestampPrecision).
Local Abbreviation visit := (visit kTraceFormatVersion kTimestampPrecision).
Local Abbreviation reachable := (reachable kTraceFormatVersion kTimestampPrecision).
Local Abbreviation pipeline := (pipeline kTimestampPrecision).
Local Abbreviation header_block := (header_block kTraceFormatVersion kTimestampPrecision).
Local Abbreviation started := (started kTraceFormatVersion kTimestampPrecision).
Local Abbreviation outermost := (outermost kTimestampPrecision).
Local Abbreviation lifecycle_inv := (lifecycle_inv kTraceFormatVersion kTimestampPrecision).

(** [onTraceStart] for the expected trace from a state without a stream,
    check by check. *)
Lemma onTraceStart_idle_cases (sys : Sys) (flags : Z) (v : TraceLifecycleVisitor) :
  output_ v = None ->
  match getTraceID (expected_trace_ v) with
  | inl ex => onTraceStart sys (expected_trace_ v) flags v = (inl ex, v, [])
  | inr id =>
      if folder_ready sys (trace_folder v id) then
        match getTraceFilename sys (trace_prefix_ v) id with
        | inl ex =>
            onTraceStart sys (expected_trace_ v) flags v
            = (inl ex, v, folder_events sys (trace_folder v id))
        | inr filename =>
            if can_open sys (trace_file v id filename) then
              onTraceStart sys (expected_trace_ v) flags v
              = (inr tt, started v id (trace_file v id filename),
                 (folder_events sys (trace_folder v id)
                  ++ [FileOpened (trace_file v id filename)]
                  ++ callback_events v
                       (TraceCallbacks.onTraceStart (expected_trace_ v) flags
                          (trace_file v id filename)))%list)
            else
              onTraceStart sys (expected_trace_ v) flags v
              = (inl (stream_failure (trace_file v id filename)), v,
                 folder_events sys (trace_folder v id))
        end
      else
        exists code what,
          onTraceStart sys (expected_trace_ v) flags v
          = (inl (system_error code what), v, [])
  end.
Proof.
  intros Hout. unfold Writer.onTraceStart.
  erewrite bind_ret_run by reflexivity.
  rewrite Z.eqb_refl, Hout. cbn [negb].
  destruct (getTraceID (expected_trace_ v)) as [ex|id] eqn:Hid.
  { erewrite bind_throw_run by reflexivity. reflexivity. }
  erewrite bind_ret_run by reflexivity.
  fold (trace_folder v id).
  pose proof (ensureFolder_guarded sys (folder_ v) (trace_folder v id) v) as Hens.
  destruct (folder_ready sys (trace_folder v id)).
  2:{ destruct Hens as (code & what & Hens). exists code, what.
      erewrite bind_throw_run by exact Hens. reflexivity. }
  erewrite bind_run by exact Hens.
  destruct (getTraceFilename sys (trace_prefix_ v) id) as [ex|filename].
  { erewrite bind_throw_run by reflexivity. cbn [prepend]. rewrite app_nil_r. reflexivity. }
  erewrite bind_ret_run by reflexivity.
  fold (trace_file v id filename).
  destruct (can_open sys (trace_file v id filename)) eqn:Hopen.
  2:{ erewrite bind_throw_run by (unfold open_output; rewrite Hopen; reflexivity).
      cbn [prepend]. rewrite app_nil_r. reflexivity. }
  erewrite bind_run by (unfold open_output; rewrite Hopen; reflexivity).
  erewrite bind_ret_run by reflexivity.
  rewrite !emplace_back_back.
  erewrite bind_ret_run by reflexivity.
  erewrite bind_run by apply notify_run.
  unfold Writer.started, callback_events, Writer.pipeline, modify, prepend.
  cbn [callbacks_ set_delegates_ set_output_ set_done_ delegates_ output_ folder_
       trace_prefix_ trace_headers_ expected_trace_ done_ of_path of_data].
  rewrite <- !app_assoc. cbn [app]. rewrite app_nil_r.
  reflexivity.
Qed.

(** What one [visit] can do to the object: throw from the start of the
    expected trace, leaving it as it was; or return, leaving it as it was,
    stopped, or started. *)
Ltac done_right := eexists _, _; split; [reflexivity|eauto 10].

Lemma visit_outcome (sys : Sys) (entry : Entry) (v : TraceLifecycleVisitor) :
  (exists ex evs,
     visit sys entry v = (inl ex, v, evs) /\
     is_start_failure ex /\
     Forall is_FolderCreated evs /\
     output_ v = None /\
     exists e, entry = Standard e /\
               (type e = TRACE_START \/ type e = TRACE_BACKWARDS) /\
               extra e = expected_trace_ v) \/
  (exists s evs,
     visit sys entry v = (inr tt, s, evs) /\
     (s = v \/ s = stopped v \/
      exists id path,
        output_ v = None /\ getTraceID (expected_trace_ v) = inr id /\ s = started v id path)).
Proof.
  destruct entry as [e|e|e]; cbn [Writer.visit].
  2:{ right. unfold visit_FramesEntry. rewrite forward_run. done_right. }
  2:{ right. unfold visit_BytesEntry. rewrite forward_run. done_right. }
  destruct (is_lifecycle (type e)) eqn:Hl.
  2:{ right. rewrite visit_default_run by exact Hl. done_right. }
  destruct (Z.eq_dec (extra e) (expected_trace_ v)) as [He|Hne].
  2:{ right. destruct (type e) eqn:Ht; try discriminate.
      - rewrite visit_start_mismatch by auto. done_right.
      - rewrite visit_stop_mismatch by auto. done_right.
      - rewrite visit_stop_mismatch by auto. done_right.
      - rewrite visit_stop_mismatch by auto. done_right.
      - rewrite visit_start_mismatch by auto. done_right. }
  assert (type e = TRACE_START \/ type e = TRACE_BACKWARDS ->
          (exists ex evs,
             visit_StandardEntry sys e v = (inl ex, v, evs) /\
             is_start_failure ex /\
             Forall is_FolderCreated evs /\
             output_ v = None /\
             exists e0, Standard e = Standard e0 /\
                        (type e0 = TRACE_START \/ type e0 = TRACE_BACKWARDS) /\
                        extra e0 = expected_trace_ v) \/
          (exists s evs,
             visit_StandardEntry sys e v = (inr tt, s, evs) /\
             (s = v \/ s = stopped v \/
              exists id path,
                output_ v = None /\ getTraceID (expected_trace_ v) = inr id /\
                s = started v id path))) as Hstart.
  { intros Ht. destruct (output_ v) as [f|] eqn:Hout.
    { right. erewrite visit_start_active by eauto. done_right. }
    rewrite visit_start_run by exact Ht. rewrite He.
    pose proof (onTraceStart_idle_cases sys (matchid e) v Hout) as Hcases.
    destruct (getTraceID (expected_trace_ v)) as [ex|id] eqn:Hid.
    { left. exists ex, []. erewrite bind_throw_run by exact Hcases.
      apply getTraceID_throws in Hid. subst ex.
      split; [reflexivity|]. split; [exact I|]. split; [constructor|]. split; [reflexivity|]. exists e. auto. }
    destruct (folder_ready sys (trace_folder v id)).
    2:{ destruct Hcases as (code & what & Hcases). left.
        exists (system_error code what), []. erewrite bind_throw_run by exact Hcases.
        split; [reflexivity|]. split; [exact I|]. split; [constructor|]. split; [reflexivity|]. exists e. auto. }
    destruct (getTraceFilename sys (trace_prefix_ v) id) as [ex|filename] eqn:Hfn.
    { left. exists ex, (folder_events sys (trace_folder v id)).
      erewrite bind_throw_run by exact Hcases.
      apply getTraceFilename_throws in Hfn as [_ ->].
      split; [reflexivity|]. split; [exact I|].
      split; [apply folder_events_created|]. split; [reflexivity|]. exists e. auto. }
    destruct (can_open sys (trace_file v id filename)).
    - right. erewrite bind_run by exact Hcases. rewrite forward_run.
      cbn [prepend]. done_right.
    - left. exists (stream_failure (trace_file v id filename)),
                   (folder_events sys (trace_folder v id)).
      erewrite bind_throw_run by exact Hcases.
      split; [reflexivity|]. split; [exact I|].
      split; [apply folder_events_created|]. split; [reflexivity|]. exists e. auto. }
  apply Z.eqb_eq in He.
  destruct (type e) eqn:Ht; try discriminate; auto.
  - right. rewrite visit_end_run by exact Ht. rewrite He. done_right.
  - right. rewrite (visit_abort_run _ _ sys e v CONTROLLER_INITIATED) by auto. rewrite He. done_right.
  - right. rewrite (visit_abort_run _ _ sys e v TIMEOUT) by auto. rewrite He. done_right.
Qed.



Lemma same_config_refl (v : TraceLifecycleVisitor) : same_config v v.
Proof. repeat split. Qed.

(** X15: no [visit] and no [abort] changes the folder, the prefix, the
    headers, the expected trace id or the callbacks of the object, whether
    it returns or throws. *)
Theorem visit_keeps_config (sys : Sys) (entry : Entry) (reason : AbortReason)
    (v : TraceLifecycleVisitor) :
  same_config v (state_of (visit sys entry v)) /\
  same_config v (state_of (abort reason v)).
Proof.
  split.
  - destruct (visit_outcome sys entry v)
      as [(ex & evs & -> & _) | (s & evs & -> & [-> | [-> | (id & path & _ & _ & ->)]])];
      cbn [state_of fst snd]; repeat split.
  - rewrite abort_run. repeat split.
Qed.

(** The flag [done_] is down while a stream is open. *)
Lemma reachable_not_done (v : TraceLifecycleVisitor) :
  reachable v -> output_ v <> None -> done_ v = false.
Proof.
  induction 1 as [folder trace_prefix callbacks headers trace_id
                 | sys entry v _ IH | reason v _ IH].
  - intros Hout. contradiction Hout. reflexivity.
  - destruct (visit_outcome sys entry v)
      as [(ex & evs & -> & _) | (s & evs & -> & [-> | [-> | (id & path & _ & _ & ->)]])];
      cbn [state_of fst snd].
    + exact IH.
    + exact IH.
    + intros Hout. contradiction Hout. reflexivity.
    + reflexivity.
  - rewrite abort_run. intros Hout. contradiction Hout. reflexivity.
Qed.

(** X16: in every state a visitor can reach, the stream and the pipeline
    go together: the pipeline is empty exactly when no stream is open, and
    over an open stream it is the four visitors in the order print, delta
    encoding, timestamp truncation, stack inversion, the last being the one
    entries are handed to; and [done_] is never set while a stream is
    open. *)
Theorem reachable_stream_and_pipeline (v : TraceLifecycleVisitor) :
  reachable v ->
  (output_ v = None <-> delegates_ v = []) /\
  (hasDelegate v = true <-> output_ v <> None) /\
  (forall f : ofstream,
     output_ v = Some f ->
     delegates_ v
     = [ PrintEntryVisitor (of_path f);
         DeltaEncodingVisitor (PrintEntryVisitor (of_path f));
         TimestampTruncatingVisitor (DeltaEncodingVisitor (PrintEntryVisitor (of_path f)))
           kTimestampPrecision;
         StackTraceInvertingVisitor
           (TimestampTruncatingVisitor (DeltaEncodingVisitor (PrintEntryVisitor (of_path f)))
              kTimestampPrecision) ] /\
     done_ v = false).
Proof.
  intros Hreach. pose proof (reachable_inv _ _ v Hreach) as Hinv.
  pose proof (reachable_not_done v Hreach) as Hdone.
  unfold Writer.lifecycle_inv in Hinv. unfold hasDelegate.
  destruct (output_ v) as [f|] eqn:Hout.
  - destruct Hinv as [Hds _]. rewrite Hds. cbn [Writer.pipeline].
    split; [split; discriminate|]. split; [split; [discriminate|reflexivity]|].
    intros f' [= <-]. split; [reflexivity|]. apply Hdone. discriminate.
  - rewrite Hinv. split; [tauto|]. split; [split; [discriminate|congruence]|].
    discriminate.
Qed.

(** X17: from [IDLE], the start of the expected trace returns when the id
    is not negative, the trace folder is there or can be made, the local
    time can be had and the file can be opened.  The file is
    [folder/sanitized id/sanitized file name]; it is opened after the
    folder is made, holds the header block, and is the sink of the new
    pipeline; the callbacks hear of the start with that path before the
    entry itself is handed to the pipeline. *)
Theorem start_from_idle_succeeds (sys : Sys) (e : StandardEntry)
    (v : TraceLifecycleVisitor) (id filename : string) :
  output_ v = None ->
  delegates_ v = [] ->
  type e = TRACE_START \/ type e = TRACE_BACKWARDS ->
  extra e = expected_trace_ v ->
  getTraceID (expected_trace_ v) = inr id ->
  folder_ready sys (trace_folder v id) = true ->
  getTraceFilename sys (trace_prefix_ v) id = inr filename ->
  can_open sys (trace_file v id filename) = true ->
  visit_StandardEntry sys e v
  = (inr tt,
     set_done_ false
       (set_delegates_ (pipeline (trace_file v id filename))
          (set_output_
             (Some (mkOfstream (trace_file v id filename)
                      (header_block id (trace_headers_ v)))) v)),
     (folder_events sys (trace_folder v id)
      ++ [FileOpened (trace_file v id filename)]
      ++ (if callbacks_ v
          then [Callback (TraceCallbacks.onTraceStart (expected_trace_ v) (matchid e)
                            (trace_file v id filename))]
          else [])
      ++ [DelegateVisit (outermost (trace_file v id filename)) (Standard e)])%list).
Proof.
  intros Hout Hnil Ht He Hid Hready Hfn Hopen.
  rewrite visit_start_run by exact Ht. rewrite He.
  pose proof (onTraceStart_idle_cases sys (matchid e) v Hout) as Hcases.
  rewrite Hid, Hready, Hfn, Hopen in Hcases.
  erewrite bind_run by exact Hcases. rewrite forward_run.
  unfold forward_events, prepend, Writer.started, callback_events.
  cbn [delegates_ set_output_ set_delegates_ set_done_]. rewrite Hnil.
  cbn [app Writer.pipeline last]. rewrite <- !app_assoc, writeHeaders_block.
  reflexivity.
Qed.

(** X18: a start that fails after the folder check leaves the folder
    behind.  When the local time cannot be had, or the file cannot be
    opened, the start throws ([runtime_error], or the failure of the
    stream) with the object unchanged, but the folder it made stays. *)
Theorem failed_start_leaves_folder (sys : Sys) (e : StandardEntry)
    (v : TraceLifecycleVisitor) (id : string) :
  output_ v = None ->
  type e = TRACE_START \/ type e = TRACE_BACKWARDS ->
  extra e = expected_trace_ v ->
  getTraceID (expected_trace_ v) = inr id ->
  folder_ready sys (trace_folder v id) = true ->
  (localtime_r sys = None ->
   visit_StandardEntry sys e v
   = (inl (runtime_error "Could not localtime_r(3)"), v,
      folder_events sys (trace_folder v id))) /\
  (forall filename,
     getTraceFilename sys (trace_prefix_ v) id = inr filename ->
     can_open sys (trace_file v id filename) = false ->
     visit_StandardEntry sys e v
     = (inl (stream_failure (trace_file v id filename)), v,
        folder_events sys (trace_folder v id))).
Proof.
  intros Hout Ht He Hid Hready.
  pose proof (onTraceStart_idle_cases sys (matchid e) v Hout) as Hcases.
  rewrite Hid, Hready in Hcases.
  rewrite visit_start_run by exact Ht. rewrite He.
  split.
  - intros Hlt.
    assert (getTraceFilename sys (trace_prefix_ v) id
            = inl (runtime_error "Could not localtime_r(3)")) as Hfn.
    { unfold getTraceFilename. rewrite Hlt. reflexivity. }
    rewrite Hfn in Hcases. erewrite bind_throw_run by exact Hcases. reflexivity.
  - intros filename Hfn Hopen. rewrite Hfn, Hopen in Hcases.
    erewrite bind_throw_run by exact Hcases. reflexivity.
Qed.

(** X19: an end, abort or timeout of the expected trace that finds no
    trace open still sets [done_] and still calls the callback: the
    callbacks can hear of an end without having heard of a start. *)
Theorem terminal_entry_when_idle (sys : Sys) (e : StandardEntry)
    (v : TraceLifecycleVisitor) (c : TraceCallbacks.call) :
  output_ v = None ->
  delegates_ v = [] ->
  extra e = expected_trace_ v ->
  terminal_callback e = Some c ->
  visit_StandardEntry sys e v
  = (inr tt, set_done_ true v, if callbacks_ v then [Callback c] else []).
Proof.
  intros Hout Hnil He Hc.
  assert (stopped v = set_done_ true v) as Hs.
  { unfold stopped, set_output_, set_delegates_, set_done_.
    cbn [folder_ trace_prefix_ trace_headers_ output_ delegates_ expected_trace_
         callbacks_ done_].
    rewrite <- Hout, <- Hnil. reflexivity. }
  assert (forall c', (forward_events v (Standard e) ++ teardown_events v
                      ++ callback_events v c')%list
                     = if callbacks_ v then [Callback c'] else []) as Hevs.
  { intros c'. unfold forward_events, teardown_events, callback_events.
    rewrite Hnil, Hout. reflexivity. }
  apply Z.eqb_eq in He. unfold terminal_callback in Hc.
  destruct (type e) eqn:Ht; try discriminate; injection Hc as <-.
  - rewrite visit_end_run by exact Ht. rewrite He, Hevs, Hs. reflexivity.
  - rewrite (visit_abort_run _ _ sys e v CONTROLLER_INITIATED) by auto.
    rewrite He, Hevs, Hs. reflexivity.
  - rewrite (visit_abort_run _ _ sys e v TIMEOUT) by auto.
    rewrite He, Hevs, Hs. reflexivity.
Qed.

(** X20: [abort] always returns.  The first abort of an open trace
    destroys the pipeline, closes the file and calls [onTraceAbort] with
    the expected id; one more abort finds nothing to tear down and changes
    nothing in the object, but calls [onTraceAbort] again. *)
Theorem abort_twice (reason reason' : AbortReason) (v : TraceLifecycleVisitor) :
  abort reason v
  = (inr tt, stopped v,
     (teardown_events v
      ++ (if callbacks_ v
          then [Callback (TraceCallbacks.onTraceAbort (expected_trace_ v) reason)]
          else []))%list) /\
  abort reason' (stopped v)
  = (inr tt, stopped v,
     if callbacks_ v
     then [Callback (TraceCallbacks.onTraceAbort (expected_trace_ v) reason')]
     else []).
Proof.
  split; rewrite abort_run; reflexivity.
Qed.

(** X21: a trace from start to end.  From [IDLE], once the start of the
    expected trace has returned, its [TRACE_END] hands the entry to the
    pipeline, destroys the pipeline, closes the very file the start opened,
    calls [onTraceEnd], and leaves the object as it was before the start,
    with [done_] set. *)
Theorem start_then_end (sys sys' : Sys) (e_start e_end : StandardEntry)
    (v : TraceLifecycleVisitor) :
  output_ v = None ->
  delegates_ v = [] ->
  type e_start = TRACE_START ->
  extra e_start = expected_trace_ v ->
  type e_end = TRACE_END ->
  extra e_end = expected_trace_ v ->
  result_of (visit_StandardEntry sys e_start v) = inr tt ->
  exists (id path : string),
    getTraceID (expected_trace_ v) = inr id /\
    In (FileOpened path) (events_of (visit_StandardEntry sys e_start v)) /\
    visit_StandardEntry sys' e_end (state_of (visit_StandardEntry sys e_start v))
    = (inr tt, set_done_ true v,
       ([DelegateVisit (outermost path) (Standard e_end);
         DelegatesDestroyed (pipeline path);
         FileClosed (mkOfstream path (header_block id (trace_headers_ v)))]
        ++ (if callbacks_ v
            then [Callback (TraceCallbacks.onTraceEnd (expected_trace_ v))]
            else []))%list).
Proof.
  intros Hout Hnil Hts Hes Hte Hee Hok.
  destruct (visit_start_idle kTraceFormatVersion kTimestampPrecision sys e_start v (or_introl Hts) Hes Hout Hnil)
    as [(ex & evs & Hrun & _) | (id & path & evs & Hid & _ & Hrun)].
  { rewrite Hrun in Hok. discriminate. }
  exists id, path. split; [exact Hid|]. rewrite Hrun. cbn [events_of state_of fst snd].
  split; [apply in_or_app; right; left; reflexivity|].
  rewrite visit_end_run by exact Hte.
  assert ((extra e_end =? expected_trace_ (started v id path)) = true) as ->.
  { apply Z.eqb_eq. rewrite Hee. reflexivity. }
  unfold forward_events, teardown_events, callback_events, stopped, Writer.started.
  cbn [delegates_ output_ callbacks_ set_output_ set_delegates_ set_done_
       folder_ trace_prefix_ trace_headers_ expected_trace_ done_].
  rewrite Hnil, writeHeaders_block, Hee. cbn [app Writer.pipeline last].
  f_equal. f_equal.
  unfold set_done_. rewrite <- Hout, <- Hnil. reflexivity.
Qed.

(** X22: while a trace is open, every [FramesEntry], every [BytesEntry]
    and every [StandardEntry] of a type the switch does not name is handed
    once to the outermost visitor of the pipeline, the stack inverting
    one, and nothing else happens. *)
Theorem active_entries_forwarded (sys : Sys) (entry : Entry)
    (v : TraceLifecycleVisitor) (f : ofstream) :
  reachable v ->
  output_ v = Some f ->
  match entry with
  | Standard e => is_lifecycle (type e) = false
  | _ => True
  end ->
  visit sys entry v
  = (inr tt, v, [DelegateVisit (outermost (of_path f)) entry]).
Proof.
  intros Hreach Hf Hentry.
  pose proof (lifecycle_inv_active _ _ v f (reachable_inv _ _ v Hreach) Hf) as Hds.
  assert (forall X, forward_events v X = [DelegateVisit (outermost (of_path f)) X]) as Hfw.
  { intros X. unfold forward_events. rewrite Hds. reflexivity. }
  destruct entry as [e|e|e]; cbn [Writer.visit].
  - rewrite visit_default_run by exact Hentry. rewrite Hfw. reflexivity.
  - unfold visit_FramesEntry. rewrite forward_run, Hfw. reflexivity.
  - unfold visit_BytesEntry. rewrite forward_run, Hfw. reflexivity.
Qed.

(** X23: [writeHeaders] writes keys and values as they are, with nothing
    escaped: a ['|'] at the end of the key or at the head of the value
    gives the same bytes, so the header pairs cannot always be read back
    from the file. *)
Theorem header_pairs_not_escaped (v v' : TraceLifecycleVisitor)
    (before after : list (string * string)) (key middle value output id : string) :
  trace_headers_ v = (before ++ ((key ++ "|" ++ middle)%string, value) :: after)%list ->
  trace_headers_ v' = (before ++ (key, (middle ++ "|" ++ value)%string) :: after)%list ->
  writeHeaders v output id = writeHeaders v' output id.
Proof.
  intros Hv Hv'. rewrite !writeHeaders_block. f_equal.
  unfold Writer.header_block, header_lines. rewrite Hv, Hv'.
  rewrite !map_app. cbn [map fst snd]. rewrite !append_assoc. reflexivity.
Qed.


(** *** Files opened and closed over a whole run *)

Lemma files_open_app (open : list string) (a b : list Event) :
  files_open open (a ++ b)%list = files_open (files_open open a) b.
Proof.
  revert open. induction a as [|ev a IH]; intros open; [reflexivity|].
  destruct ev; cbn [app files_open]; apply IH.
Qed.

Lemma files_open_neutral (open : list string) (evs : list Event) :
  forallb (fun ev => negb (is_file_event ev)) evs = true ->
  files_open open evs = open.
Proof.
  induction evs as [|ev evs IH]; [reflexivity|].
  cbn [forallb]. intros Hevs. apply andb_true_iff in Hevs as [Hev Hevs].
  destruct ev; try discriminate; cbn [files_open]; apply IH; exact Hevs.
Qed.

Lemma forward_events_neutral (v : TraceLifecycleVisitor) (X : Entry) :
  forallb (fun ev => negb (is_file_event ev)) (forward_events v X) = true.
Proof. unfold forward_events. destruct (last (delegates_ v)); reflexivity. Qed.

Lemma callback_events_neutral (v : TraceLifecycleVisitor) (c : TraceCallbacks.call) :
  forallb (fun ev => negb (is_file_event ev)) (callback_events v c) = true.
Proof. unfold callback_events. destruct (callbacks_ v); reflexivity. Qed.

Lemma FolderCreated_neutral (evs : list Event) :
  Forall is_FolderCreated evs ->
  forallb (fun ev => negb (is_file_event ev)) evs = true.
Proof.
  induction 1 as [|ev evs Hev _ IH]; [reflexivity|].
  cbn [forallb]. rewrite IH. destruct ev; try contradiction. reflexivity.
Qed.

Lemma teardown_closes (v : TraceLifecycleVisitor) :
  files_open (held_open v) (teardown_events v) = [].
Proof.
  unfold held_open, teardown_events.
  destruct (output_ v) as [f|]; destruct (delegates_ v); cbn [app files_open remove];
    try reflexivity; destruct (string_dec (of_path f) (of_path f)); congruence.
Qed.

(** What the stop of a trace does to the open files, whatever is handed
    on before and called back after. *)
Lemma stop_closes (v : TraceLifecycleVisitor) (pre : list Event) (c : TraceCallbacks.call) :
  forallb (fun ev => negb (is_file_event ev)) pre = true ->
  files_open (held_open v) (pre ++ teardown_events v ++ callback_events v c)%list
  = held_open (stopped v).
Proof.
  intros Hpre. rewrite !files_open_app, (files_open_neutral _ pre Hpre), teardown_closes.
  apply files_open_neutral, callback_events_neutral.
Qed.

Lemma visit_files_open (sys : Sys) (entry : Entry) (v : TraceLifecycleVisitor) :
  lifecycle_inv v ->
  files_open (held_open v) (events_of (visit sys entry v))
  = held_open (state_of (visit sys entry v)).
Proof.
  intros Hinv.
  destruct entry as [e|e|e]; cbn [Writer.visit].
  2:{ unfold visit_FramesEntry. rewrite forward_run. cbn [events_of state_of fst snd].
      apply files_open_neutral, forward_events_neutral. }
  2:{ unfold visit_BytesEntry. rewrite forward_run. cbn [events_of state_of fst snd].
      apply files_open_neutral, forward_events_neutral. }
  destruct (is_lifecycle (type e)) eqn:Hl.
  2:{ rewrite visit_default_run by exact Hl. cbn [events_of state_of fst snd].
      apply files_open_neutral, forward_events_neutral. }
  destruct (Z.eq_dec (extra e) (expected_trace_ v)) as [He|Hne].
  2:{ destruct (type e) eqn:Ht; try discriminate.
      - rewrite visit_start_mismatch by auto. cbn [events_of state_of fst snd].
        apply files_open_neutral, forward_events_neutral.
      - rewrite visit_stop_mismatch by auto. reflexivity.
      - rewrite visit_stop_mismatch by auto. reflexivity.
      - rewrite visit_stop_mismatch by auto. reflexivity.
      - rewrite visit_start_mismatch by auto. cbn [events_of state_of fst snd].
        apply files_open_neutral, forward_events_neutral. }
  assert (type e = TRACE_START \/ type e = TRACE_BACKWARDS ->
          files_open (held_open v) (events_of (visit_StandardEntry sys e v))
          = held_open (state_of (visit_StandardEntry sys e v))) as Hstart.
  { intros Ht. destruct (output_ v) as [f|] eqn:Hout.
    - erewrite visit_start_active by eauto. cbn [events_of state_of fst snd].
      apply (stop_closes v []). reflexivity.
    - pose proof (lifecycle_inv_idle _ _ v Hinv Hout) as Hnil.
      destruct (visit_start_idle kTraceFormatVersion kTimestampPrecision sys e v Ht He Hout Hnil)
        as [(ex & evs & -> & Hevs & _) | (id & path & evs & _ & Hevs & ->)];
        cbn [events_of state_of fst snd].
      + apply files_open_neutral, FolderCreated_neutral, Hevs.
      + unfold held_open at 1. rewrite Hout.
        rewrite files_open_app, (files_open_neutral _ evs (FolderCreated_neutral _ Hevs)).
        cbn [app files_open]. rewrite files_open_app.
        rewrite (files_open_neutral _ _ (callback_events_neutral _ _)). reflexivity. }
  apply Z.eqb_eq in He.
  destruct (type e) eqn:Ht; try discriminate; auto.
  - rewrite visit_end_run by exact Ht. rewrite He. cbn [events_of state_of fst snd].
    apply stop_closes, forward_events_neutral.
  - rewrite (visit_abort_run _ _ sys e v CONTROLLER_INITIATED) by auto. rewrite He.
    cbn [events_of state_of fst snd]. apply stop_closes, forward_events_neutral.
  - rewrite (visit_abort_run _ _ sys e v TIMEOUT) by auto. rewrite He.
    cbn [events_of state_of fst snd]. apply stop_closes, forward_events_neutral.
Qed.

Lemma run_of_reachable (evs : list Event) (v : TraceLifecycleVisitor) :
  run_of kTraceFormatVersion kTimestampPrecision evs v -> reachable v.
Proof.
  induction 1; [apply reachable_new | apply reachable_visit | apply reachable_abort];
    assumption.
Qed.

(** X24: over the whole life of a visitor, every file it opens it closes
    before it opens another.  After any run of [visit] and [abort] calls
    the files opened and not closed are the one the object holds in
    [output_], or none: there is never more than one, and none leaks. *)
Theorem one_file_open_at_a_time (evs : list Event) (v : TraceLifecycleVisitor) :
  run_of kTraceFormatVersion kTimestampPrecision evs v ->
  files_open [] evs = held_open v /\
  (length (files_open [] evs) <= 1)%nat.
Proof.
  intros Hrun.
  assert (files_open [] evs = held_open v) as Hopen.
  { induction Hrun as [folder trace_prefix callbacks headers trace_id
                      | sys entry evs v Hrun IH | reason evs v Hrun IH].
    - reflexivity.
    - rewrite files_open_app, IH. apply visit_files_open.
      apply reachable_inv. eapply run_of_reachable. exact Hrun.
    - rewrite files_open_app, IH, abort_run. cbn [events_of state_of fst snd].
      apply (stop_closes v []). reflexivity. }
  split; [exact Hopen|]. rewrite Hopen. unfold held_open.
  destruct (output_ v); simpl; lia.
Qed.

End LifecycleMore.

(** ** The sample run again *)



Lemma reachable_stream_and_pipeline_witness :
  (output_ sample_active = None <-> delegates_ sample_active = []) /\
  (hasDelegate sample_active = true <-> output_ sample_active <> None) /\
  (forall f : ofstream,
     output_ sample_active = Some f ->
     delegates_ sample_active
     = [ PrintEntryVisitor (of_path f);
         DeltaEncodingVisitor (PrintEntryVisitor (of_path f));
         TimestampTruncatingVisitor (DeltaEncodingVisitor (PrintEntryVisitor (of_path f))) 6;
         StackTraceInvertingVisitor
           (TimestampTruncatingVisitor (DeltaEncodingVisitor (PrintEntryVisitor (of_path f)))
              6) ] /\
     done_ sample_active = false).
Proof.
  apply (reachable_stream_and_pipeline 3 6 sample_active).
  exact sample_active_reachable.
Defined.

Lemma start_from_idle_succeeds_witness :
  visit_StandardEntry 3 6 sample_sys (sample_entry TRACE_START 42) sample_idle
  = (inr tt,
     set_done_ false
       (set_delegates_ (pipeline 6 sample_path)
          (set_output_
             (Some (mkOfstream sample_path
                      (header_block 3 6 "AAAAAAAAAAq" [("os", "android")]))) sample_idle)),
     [FolderCreated "/data/traces/AAAAAAAAAAq";
      FileOpened sample_path;
      Callback (TraceCallbacks.onTraceStart 42 7 sample_path);
      DelegateVisit (outermost 6 sample_path) (Standard (sample_entry TRACE_START 42))]).
Proof.
  refine (start_from_idle_succeeds 3 6 sample_sys (sample_entry TRACE_START 42) sample_idle
            "AAAAAAAAAAq" "trace-4242-2017-1-5T3-4-9-AAAAAAAAAAq.tmp" _ _ _ _ _ _ _ _).
  - reflexivity.
  - reflexivity.
  - left. reflexivity.
  - reflexivity.
  - reflexivity.
  - reflexivity.
  - reflexivity.
  - reflexivity.
Defined.

Lemma failed_start_leaves_folder_witness :
  let sys := mkSys 4242 None (fun _ => inl ENOENT) (fun _ => None) 10001 10001
               (fun _ => true) in
  visit_StandardEntry 3 6 sys (sample_entry TRACE_START 42) sample_idle
  = (inl (runtime_error "Could not localtime_r(3)"), sample_idle,
     [FolderCreated "/data/traces/AAAAAAAAAAq"]).
Proof.
  refine (proj1 (failed_start_leaves_folder 3 6
                   (mkSys 4242 None (fun _ => inl ENOENT) (fun _ => None) 10001 10001
                      (fun _ => true))
                   (sample_entry TRACE_START 42) sample_idle "AAAAAAAAAAq" _ _ _ _ _) _).
  all: first [reflexivity | left; reflexivity].
Defined.

Lemma terminal_entry_when_idle_witness :
  visit_StandardEntry 3 6 sample_sys (sample_entry TRACE_END 42) sample_idle
  = (inr tt, set_done_ true sample_idle, [Callback (TraceCallbacks.onTraceEnd 42)]).
Proof.
  refine (terminal_entry_when_idle 3 6 sample_sys (sample_entry TRACE_END 42) sample_idle
            (TraceCallbacks.onTraceEnd 42) _ _ _ _); reflexivity.
Defined.

Lemma start_then_end_witness :
  exists (id path : string),
    getTraceID 42 = inr id /\
    In (FileOpened path)
       (events_of (visit_StandardEntry 3 6 sample_sys (sample_entry TRACE_START 42)
                     sample_idle)) /\
    visit_StandardEntry 3 6 sample_sys (sample_entry TRACE_END 42)
      (state_of (visit_StandardEntry 3 6 sample_sys (sample_entry TRACE_START 42) sample_idle))
    = (inr tt, set_done_ true sample_idle,
       ([DelegateVisit (outermost 6 path) (Standard (sample_entry TRACE_END 42));
         DelegatesDestroyed (pipeline 6 path);
         FileClosed (mkOfstream path (header_block 3 6 id [("os", "android")]))]
        ++ [Callback (TraceCallbacks.onTraceEnd 42)])%list).
Proof.
  refine (start_then_end 3 6 sample_sys sample_sys (sample_entry TRACE_START 42)
            (sample_entry TRACE_END 42) sample_idle _ _ _ _ _ _ _);
    reflexivity.
Defined.

Lemma active_entries_forwarded_witness :
  let entry := Frames (mkFramesEntry (sample_entry STACK_FRAME 0) [10; 11]) in
  visit 3 6 sample_sys entry sample_active
  = (inr tt, sample_active, [DelegateVisit (outermost 6 sample_path) entry]).
Proof.
  refine (active_entries_forwarded 3 6 sample_sys
            (Frames (mkFramesEntry (sample_entry STACK_FRAME 0) [10; 11])) sample_active
            (mkOfstream sample_path (header_block 3 6 "AAAAAAAAAAq" [("os", "android")]))
            sample_active_reachable sample_active_output I).
Defined.

Lemma header_pairs_not_escaped_witness :
  writeHeaders 3 6 (new_TraceLifecycleVisitor "/data/traces" "trace" true [("a|b", "c")] 42)
    EmptyString "AAAAAAAAAAq"
  = writeHeaders 3 6 (new_TraceLifecycleVisitor "/data/traces" "trace" true [("a", "b|c")] 42)
      EmptyString "AAAAAAAAAAq".
Proof.
  refine (header_pairs_not_escaped 3 6
            (new_TraceLifecycleVisitor "/data/traces" "trace" true [("a|b", "c")] 42)
            (new_TraceLifecycleVisitor "/data/traces" "trace" true [("a", "b|c")] 42)
            [] [] "a" "b" "c" EmptyString "AAAAAAAAAAq" _ _); reflexivity.
Defined.

Lemma one_file_open_at_a_time_witness :
  files_open []
    (([] ++ events_of (visit 3 6 sample_sys (Standard (sample_entry TRACE_START 42)) sample_idle))
     ++ events_of (visit 3 6 sample_sys (Standard (sample_entry TRACE_END 42)) sample_active))%list
  = held_open
      (state_of (visit 3 6 sample_sys (Standard (sample_entry TRACE_END 42)) sample_active)) /\
  (length
     (files_open []
        (([] ++ events_of (visit 3 6 sample_sys (Standard (sample_entry TRACE_START 42))
                             sample_idle))
         ++ events_of (visit 3 6 sample_sys (Standard (sample_entry TRACE_END 42))
                         sample_active))%list) <= 1)%nat.
Proof.
  apply (one_file_open_at_a_time 3 6).
  apply (run_visit 3 6 sample_sys (Standard (sample_entry TRACE_END 42)) _ sample_active).
  apply (run_visit 3 6 sample_sys (Standard (sample_entry TRACE_START 42)) [] sample_idle).
  apply run_new.
Defined.
